(** * Facebird API: the error classifier, the post routes and the user schema

    A shallow embedding of [lib/custom_errors.js], of the PATCH and DELETE
    handlers of [app/routes/post_routes.js] and of the [toObject] transform of
    the user schema.  JavaScript objects live in a heap of cells addressed by
    references, so that aliasing, allocation and in-place mutation are
    visible; the posts collection is a finite map from identifiers to stored
    documents.  Code runs in a state-and-exception monad [M]. *)

From Stdlib Require Import ZArith Ascii Floats.SpecFloat.
From stdpp Require Import gmap strings list fin_maps.

Local Open Scope string_scope.

(** ** Values *)

Abbreviation loc := positive.

(** A JavaScript value: the primitives, or a reference to a heap object.
    Numbers are IEEE-754 doubles, kept in the Standard Library's [spec_float]. *)
Inductive value : Type :=
  | VUndefined
  | VNull
  | VBool (b : bool)
  | VNum (x : spec_float)
  | VBigInt (n : Z)
  | VStr (s : string)
  | VObj (l : loc).

#[global] Instance spec_float_eq_dec : EqDecision spec_float.
Proof. solve_decision. Defined.

#[global] Instance value_eq_dec : EqDecision value.
Proof. solve_decision. Defined.

(** The classes whose instances the code creates or receives.  [Object] is a
    plain object (a parsed JSON body, the request), [Document] a hydrated
    Mongoose document. *)
Inductive class : Type :=
  | Object
  | Document
  | OwnershipError
  | UserValidationError
  | DocumentNotFoundError
  | BadParamsError
  | TypeError.

#[global] Instance class_eq_dec : EqDecision class.
Proof. solve_decision. Defined.

(** A heap cell.  An [ObjectID] is the driver's opaque identifier object: it
    holds twelve bytes, written here as their canonical hexadecimal string.
    Every other object is an instance of a class with its own data
    properties. *)
Inductive object : Type :=
  | ObjectID (id : string)
  | Instance (c : class) (props : gmap string value).

#[global] Instance object_eq_dec : EqDecision object.
Proof. solve_decision. Defined.

(** ** The posts collection and the response sink *)

(** A stored post: the [owner] path (an identifier) and the other paths. *)
Record post_doc : Type := PostDoc {
  doc_owner : string;
  doc_fields : gmap string value
}.

#[global] Instance post_doc_eq_dec : EqDecision post_doc.
Proof. solve_decision. Defined.

(** What a handler wrote to [res]. *)
Inductive response : Type :=
  | Json (status : nat) (body : value)       (* res.status(n).json(body) *)
  | SendStatus (status : nat)                (* res.sendStatus(n) *)
  | ErrorJson (status : nat) (message : value). (* written by the error handler *)

Record state : Type := State {
  heap : gmap loc object;
  posts : gmap string post_doc;
  sent : list response
}.

Definition set_heap (h : gmap loc object) (s : state) : state :=
  State h (posts s) (sent s).
Definition set_posts (p : gmap string post_doc) (s : state) : state :=
  State (heap s) p (sent s).
Definition push_sent (r : response) (s : state) : state :=
  State (heap s) (posts s) (sent s ++ [r]).

(** ** The monad *)

(** A computation returns, throws a value, or leaves the fragment of
    JavaScript and of the libraries that this development describes. *)
Inductive result (A : Type) : Type :=
  | Ok (a : A)
  | Throw (e : value)
  | Unmodelled.
Arguments Ok {A} a.
Arguments Throw {A} e.
Arguments Unmodelled {A}.

Definition M (A : Type) : Type := state → result A * state.

#[global] Instance M_ret : MRet M := λ A a s, (Ok a, s).

#[global] Instance M_bind : MBind M := λ A B f m s,
  match m s with
  | (Ok a, s') => f a s'
  | (Throw e, s') => (Throw e, s')
  | (Unmodelled, s') => (Unmodelled, s')
  end.

Definition throw {A} (e : value) : M A := λ s, (Throw e, s).
Definition unmodelled {A} : M A := λ s, (Unmodelled, s).

(** [m.catch(h)], and the failure path of a promise chain. *)
Definition catch {A} (m : M A) (h : value → M A) : M A := λ s,
  match m s with
  | (Throw e, s') => h e s'
  | r => r
  end.

Definition get_state : M state := λ s, (Ok s, s).
Definition put_state (s' : state) : M unit := λ _, (Ok tt, s').
Definition modify (f : state → state) : M unit := λ s, (Ok tt, f s).

(** ** Heap operations *)

(** Allocation picks an address that is not in use. *)
Definition alloc (o : object) : M loc := λ s,
  let l := fresh (dom (heap s)) in
  (Ok l, set_heap (<[l := o]> (heap s)) s).

Definition read (l : loc) : M object := λ s,
  match heap s !! l with
  | Some o => (Ok o, s)
  | None => (Unmodelled, s)
  end.

Definition write (l : loc) (o : object) : M unit :=
  modify (λ s, set_heap (<[l := o]> (heap s)) s).

(** [this.k = v] inside a constructor. *)
Definition set_field (this : loc) (k : string) (v : value) : M unit :=
  o ← read this;
  match o with
  | Instance c props => write this (Instance c (<[k := v]> props))
  | ObjectID _ => unmodelled
  end.

(** [new C()]: a fresh instance, then the constructor body. *)
Definition new (c : class) (constructor : loc → M unit) : M value :=
  this ← alloc (Instance c ∅);
  constructor this;;
  mret (VObj this).

(** The built-in [TypeError]; its message text is not modelled. *)
Definition type_error {A} : M A :=
  e ← new TypeError (λ _, mret tt);
  throw e.

(** [v.k] and [v[k]].  A read sees the object's own data properties; a key
    that is not among them reads as [undefined].  Strings (which own their
    indices and [length]) and identifier objects are left out. *)
Definition get (v : value) (k : string) : M value :=
  match v with
  | VUndefined | VNull => type_error
  | VBool _ | VNum _ | VBigInt _ => mret VUndefined
  | VStr _ => unmodelled
  | VObj l =>
      o ← read l;
      match o with
      | Instance _ props => mret (default VUndefined (props !! k))
      | ObjectID _ => unmodelled
      end
  end.

(** [delete v.k] in strict mode. *)
Definition delete_prop (v : value) (k : string) : M unit :=
  match v with
  | VUndefined | VNull => type_error
  | VBool _ | VNum _ | VBigInt _ => mret tt
  | VStr _ => unmodelled
  | VObj l =>
      o ← read l;
      match o with
      | Instance c props => write l (Instance c (delete k props))
      | ObjectID _ => unmodelled
      end
  end.

(** [Object.keys(v)]; the order of the keys is the map's, not insertion
    order. *)
Definition Object_keys (v : value) : M (list string) :=
  match v with
  | VUndefined | VNull => type_error
  | VBool _ | VNum _ | VBigInt _ => mret []
  | VStr _ => unmodelled
  | VObj l =>
      o ← read l;
      match o with
      | Instance _ props => mret (map_to_list props).*1
      | ObjectID _ => unmodelled
      end
  end.

(** [keys.forEach(f)]. *)
Fixpoint forEach {A} (xs : list A) (f : A → M unit) : M unit :=
  match xs with
  | [] => mret tt
  | x :: xs' => f x;; forEach xs' f
  end.

(** [!!v], the truthiness of a value. *)
Definition ToBoolean (v : value) : bool :=
  match v with
  | VUndefined | VNull => false
  | VBool b => b
  | VNum (S754_zero _) | VNum S754_nan => false
  | VNum _ => true
  | VBigInt n => negb (n =? 0)%Z
  | VStr s => negb (String.eqb s "")
  | VObj _ => true
  end.

(** [a === b]: primitives by value ([NaN] differs from itself, the two zeros
    are equal), objects by reference. *)
Definition strict_eq (a b : value) : bool :=
  match a, b with
  | VUndefined, VUndefined | VNull, VNull => true
  | VBool x, VBool y => bool_decide (x = y)
  | VNum x, VNum y => SFeqb x y
  | VBigInt x, VBigInt y => (x =? y)%Z
  | VStr x, VStr y => String.eqb x y
  | VObj x, VObj y => bool_decide (x = y)
  | _, _ => false
  end.

(** The driver's [ObjectID.prototype.equals]: two identifier objects are
    equal when they hold the same bytes, whichever objects they are.  A
    string argument (compared through its hexadecimal or binary reading) and
    an object with a [toHexString] member are left out; anything else is not
    equal to an identifier. *)
Definition ObjectID_equals (id : string) (other : value) : M bool :=
  match other with
  | VObj l =>
      o ← read l;
      match o with
      | ObjectID id' => mret (String.eqb id id')
      | Instance _ props =>
          if decide (props !! "toHexString" = None) then mret false
          else unmodelled
      end
  | VStr _ => unmodelled
  | VUndefined | VNull | VBool _ | VNum _ | VBigInt _ => mret false
  end.

(** The method call [recv.equals(arg)]. *)
Definition call_equals (recv arg : value) : M bool :=
  match recv with
  | VUndefined | VNull => type_error
  | VBool _ | VNum _ | VBigInt _ | VStr _ => type_error
  | VObj l =>
      o ← read l;
      match o with
      | ObjectID id => ObjectID_equals id arg
      | Instance Document _ => unmodelled
      | Instance _ props =>
          if decide (props !! "equals" = None) then type_error
          else unmodelled
      end
  end.

(** ** lib/custom_errors.js *)

Module CustomErrors.

Definition OwnershipError_constructor (this : loc) : M unit :=
  set_field this "name" (VStr "OwnershipError");;
  set_field this "message"
    (VStr "The provided token does not match the owner of this document").

Definition UserValidationError_constructor (this : loc) : M unit :=
  set_field this "name" (VStr "UserValidationError");;
  set_field this "message"
    (VStr "The provided token does not match the current user ID").

Definition DocumentNotFoundError_constructor (this : loc) : M unit :=
  set_field this "name" (VStr "DocumentNotFoundError");;
  set_field this "message"
    (VStr "The provided ID doesn't match any documents").

Definition BadParamsError_constructor (this : loc) : M unit :=
  set_field this "name" (VStr "BadParamsError");;
  set_field this "message"
    (VStr "A required parameter was omitted or invalid").

(** [requestObject.user._id.equals(resource.owner)]: the receiver is read
    first, then the argument, then the method is called. *)
Definition requireOwnership (requestObject resource : value) : M unit :=
  user ← get requestObject "user";
  _id ← get user "_id";
  owner ← get resource "owner";
  same ← call_equals _id owner;
  if negb same then
    e ← new OwnershipError OwnershipError_constructor;
    throw e
  else mret tt.

Definition handle404 (record : value) : M value :=
  if negb (ToBoolean record) then
    e ← new DocumentNotFoundError DocumentNotFoundError_constructor;
    throw e
  else mret record.

Definition validateUser (requestObject resource : value) : M unit :=
  user ← get requestObject "user";
  _id ← get user "_id";
  rid ← get resource "_id";
  same ← call_equals _id rid;
  if negb same then
    e ← new UserValidationError UserValidationError_constructor;
    throw e
  else mret tt.

End CustomErrors.

(** ** The data layer *)

Module Mongoose.

Definition is_hex_digit (a : Ascii.ascii) : bool :=
  let n := Ascii.nat_of_ascii a in
  ((48 <=? n)%nat && (n <=? 57)%nat) || ((97 <=? n)%nat && (n <=? 102)%nat).

Fixpoint all_hex (s : string) : bool :=
  match s with
  | EmptyString => true
  | String a s' => is_hex_digit a && all_hex s'
  end.

(** The canonical spelling of an identifier: 24 lower-case hexadecimal
    digits.  The other spellings that cast to an identifier, and the cast
    error for the rest, are left out. *)
Definition is_id (s : string) : bool :=
  (String.length s =? 24)%nat && all_hex s.

Fixpoint has_dot (s : string) : bool :=
  match s with
  | EmptyString => false
  | String a s' => Ascii.eqb a "."%char || has_dot s'
  end.

(** A key that names one top-level path: no leading [$], no dot. *)
Definition plain_key (k : string) : bool :=
  match k with
  | String a _ => negb (Ascii.eqb a "$"%char) && negb (has_dot k)
  | EmptyString => false
  end.

Definition plain_keys (m : gmap string value) : bool :=
  bool_decide (map_Forall (λ k _, plain_key k = true) m).

(** Loading a stored post builds a new document whose [_id] and [owner] are
    new identifier objects. *)
Definition hydrate (i : string) (d : post_doc) : M value :=
  _id ← alloc (ObjectID i);
  owner ← alloc (ObjectID (doc_owner d));
  doc ← alloc (Instance Document
           (<["_id" := VObj _id]> (<["owner" := VObj owner]> (doc_fields d))));
  mret (VObj doc).

(** [Post.findById(id)]: the document, or [null]. *)
Definition Post_findById (id : value) : M value :=
  match id with
  | VStr i =>
      if is_id i then
        s ← get_state;
        match posts s !! i with
        | Some d => hydrate i d
        | None => mret VNull
        end
      else unmodelled
  | _ => unmodelled
  end.

(** The assignments an update document stands for: its top-level keys are
    set, and so are the keys of its [$set] operator, a top-level key taking
    precedence.  Other operators, dotted paths and an empty [$set] are left
    out. *)
Definition read_update (update : value) : M (gmap string value) :=
  match update with
  | VObj l =>
      o ← read l;
      match o with
      | Instance Object props =>
          let top := delete "$set" props in
          if plain_keys top then
            match props !! "$set" with
            | None => mret top
            | Some (VObj l') =>
                o' ← read l';
                match o' with
                | Instance Object sets =>
                    if plain_keys sets && negb (bool_decide (sets = ∅))
                    then mret (top ∪ sets)
                    else unmodelled
                | _ => unmodelled
                end
            | Some _ => unmodelled
            end
          else unmodelled
      | _ => unmodelled
      end
  | _ => unmodelled
  end.

Definition storable (v : value) : bool :=
  match v with
  | VBool _ | VNum _ | VStr _ => true
  | _ => false
  end.

(** The stored post after the assignments.  [owner] is cast from the
    canonical spelling of an identifier; the other values are stored as they
    are sent (the schema of the post, which would cast them, is not part of
    the sources).  Nested values, [null] and a write to [_id] are left out. *)
Definition apply_update (asg : gmap string value) (d : post_doc) : option post_doc :=
  if decide (asg !! "_id" = None) then
    if bool_decide (map_Forall (λ _ v, storable v = true) asg) then
      match asg !! "owner" with
      | None => Some (PostDoc (doc_owner d) (asg ∪ doc_fields d))
      | Some (VStr o) =>
          if is_id o then Some (PostDoc o (delete "owner" asg ∪ doc_fields d))
          else None
      | Some _ => None
      end
    else None
  else None.

(** [Post.findByIdAndUpdate(id, update, { new: true })]: applies the update
    to the stored post and yields the post as it is after the update, or
    [null] when there is no such post.  An update that cannot be applied is
    left out whether or not the post exists. *)
Definition Post_findByIdAndUpdate (id update : value) : M value :=
  match id with
  | VStr i =>
      if is_id i then
        asg ← read_update update;
        s ← get_state;
        match posts s !! i with
        | Some d =>
            match apply_update asg d with
            | Some d' =>
                modify (set_posts (<[i := d']> (posts s)));;
                hydrate i d'
            | None => unmodelled
            end
        | None =>
            match apply_update asg (PostDoc "" ∅) with
            | Some _ => mret VNull
            | None => unmodelled
            end
        end
      else unmodelled
  | _ => unmodelled
  end.

(** [doc.remove()]: deletes the stored post the document was loaded from.
    The handler does not wait for the removal; here it has happened when the
    call returns. *)
Definition Document_remove (doc : value) : M unit :=
  match doc with
  | VObj l =>
      o ← read l;
      match o with
      | Instance Document props =>
          match props !! "_id" with
          | Some (VObj li) =>
              oi ← read li;
              match oi with
              | ObjectID i => modify (λ s, set_posts (delete i (posts s)) s)
              | _ => unmodelled
              end
          | _ => unmodelled
          end
      | Instance _ props =>
          if decide (props !! "remove" = None) then type_error
          else unmodelled
      | ObjectID _ => unmodelled
      end
  | _ => type_error
  end.

End Mongoose.

(** ** The response sink and the error handler *)

Definition res_json (status : nat) (body : value) : M unit :=
  modify (push_sent (Json status body)).

Definition res_sendStatus (status : nat) : M unit :=
  modify (push_sent (SendStatus status)).

Module ErrorHandler.

Definition status_of (c : class) : nat :=
  match c with
  | OwnershipError => 403
  | UserValidationError => 401
  | DocumentNotFoundError => 404
  | BadParamsError => 422
  | _ => 500
  end.

(** Modelled from the spec: [lib/error_handler.js] is not among the sources.
    It receives a raised error and the response sink, maps the four domain
    errors to 403, 401, 404 and 422 and anything else to 500, and writes a
    JSON body with the error's message. *)
Definition handle (err : value) : M unit :=
  match err with
  | VObj l =>
      o ← read l;
      match o with
      | Instance c props =>
          modify (push_sent
            (ErrorJson (status_of c) (default VUndefined (props !! "message"))))
      | ObjectID _ => modify (push_sent (ErrorJson 500 VUndefined))
      end
  | _ => modify (push_sent (ErrorJson 500 VUndefined))
  end.

End ErrorHandler.

(** ** app/routes/post_routes.js *)

Module PostRoutes.
Import CustomErrors Mongoose ErrorHandler.

(** The promise chain of PATCH /posts/:id. *)
Definition patch_chain (req id update : value) : M unit :=
  catch
    (post ← Post_findByIdAndUpdate id update;
     post ← handle404 post;
     requireOwnership req post;;
     body ← alloc (Instance Object {["post" := post]});
     res_json 200 (VObj body))
    handle.

(** PATCH /posts/:id, after [requireToken] has set [req.user]. *)
Definition patch_posts_id (req : value) : M unit :=
  body ← get req "body"; post ← get body "post";
  delete_prop post "owner";;
  body ← get req "body"; post ← get body "post";
  keys ← Object_keys post;
  forEach keys (λ key,
    body ← get req "body"; post ← get body "post";
    v ← get post key;
    if strict_eq v (VStr "") then
      body ← get req "body"; post ← get body "post";
      delete_prop post key
    else mret tt);;
  params ← get req "params"; id ← get params "id";
  body ← get req "body"; update ← get body "post";
  patch_chain req id update.

(** DELETE /posts/:id, after [requireToken] has set [req.user]. *)
Definition delete_posts_id (req : value) : M unit :=
  params ← get req "params"; id ← get params "id";
  catch
    (post ← Post_findById id;
     post ← handle404 post;
     (requireOwnership req post;; Document_remove post);;
     res_sendStatus 204)
    handle.

End PostRoutes.

(** ** app/models/user.js *)

Module UserModel.

(** The [toObject.transform] option of the user schema. *)
Definition transform (_doc user : value) : M value :=
  delete_prop user "hashedPassword";;
  mret user.

End UserModel.

(** ** The other routes of app/routes/post_routes.js *)

(** [v.k = w] in strict mode. *)
Definition set_prop (v : value) (k : string) (w : value) : M unit :=
  match v with
  | VObj l =>
      o ← read l;
      match o with
      | Instance c props => write l (Instance c (<[k := w]> props))
      | ObjectID _ => unmodelled
      end
  | _ => type_error
  end.

(** [doc.id]: on a document, the virtual getter that spells [_id] as a
    string, and [null] when there is no [_id]; a plain read elsewhere. *)
Definition get_id (doc : value) : M value :=
  match doc with
  | VObj l =>
      o ← read l;
      match o with
      | Instance Document props =>
          if decide (props !! "id" = None) then
            match props !! "_id" with
            | Some (VObj li) =>
                oi ← read li;
                match oi with
                | ObjectID i => mret (VStr i)
                | Instance _ _ => unmodelled
                end
            | Some VNull | Some VUndefined | None => mret VNull
            | Some _ => unmodelled
            end
          else unmodelled
      | _ => get doc "id"
      end
  | _ => get doc "id"
  end.

(** A loop that fills a local array: the array is handed from one round to
    the next. *)
Fixpoint foldM {A B} (f : B → A → M B) (b : B) (xs : list A) : M B :=
  match xs with
  | [] => mret b
  | x :: xs' => b' ← f b x; foldM f b' xs'
  end.

(** [xs.map(f)] and [xs.find(f)] on an array, given as the list of its
    elements. *)
Fixpoint Array_map (xs : list value) (f : value → M value) : M (list value) :=
  match xs with
  | [] => mret []
  | x :: xs' => y ← f x; ys ← Array_map xs' f; mret (y :: ys)
  end.

Fixpoint Array_find (xs : list value) (f : value → M value) : M value :=
  match xs with
  | [] => mret VUndefined
  | x :: xs' => r ← f x; if ToBoolean r then mret x else Array_find xs' f
  end.

Module PostRoutesRest.
Import CustomErrors Mongoose ErrorHandler.

(** The handlers below call into Mongoose and the post model, which are not
    among the sources: [doc.toObject()], the query
    [Post.find().populate('owner', 'nickname').sort('-createdAt')], the
    populating of one loaded post and [Post.create].  Each handler takes the
    ones it calls as arguments and is described whatever they do. *)

(** [req.user._id.equals(post.owner._id)] *)
Definition is_mine (req post : value) : M bool :=
  user ← get req "user"; _id ← get user "_id";
  owner ← get post "owner"; owner_id ← get owner "_id";
  call_equals _id owner_id.

(** GET /posts/myPosts: what the first [then] makes of the posts found. *)
Definition myPosts_then (toObject : value → M value) (req : value)
    (posts : list value) : M (list value) :=
  myPosts ← foldM (λ (myPosts : list value) (post : value),
      mine ← is_mine req post;
      if mine : bool then mret (myPosts ++ [post])%list else mret myPosts) [] posts;
  Array_map myPosts toObject.

(** GET /posts/myLatestPost. *)
Definition get_posts_myLatestPost (find_populate_sort : M (list value))
    (req : value) : M unit :=
  catch
    (posts ← find_populate_sort;
     post ← Array_find posts (λ post : value,
       mine ← is_mine req post;
       if mine : bool then mret post else mret VUndefined);
     body ← alloc (Instance Object {["post" := post]});
     res_json 200 (VObj body))
    handle.

(** [Post.findById(id).populate('owner', 'nickname')]: when no post is
    found there is nothing to populate. *)
Definition Post_findById_populate (populate : value → M value) (id : value) : M value :=
  post ← Post_findById id;
  match post with
  | VNull => mret VNull
  | _ => populate post
  end.

(** GET /posts/:id. *)
Definition get_posts_id (populate toObject : value → M value) (req : value) : M unit :=
  params ← get req "params"; id ← get params "id";
  catch
    (post ← Post_findById_populate populate id;
     post ← handle404 post;
     obj ← toObject post;
     body ← alloc (Instance Object {["post" := obj]});
     res_json 200 (VObj body))
    handle.

(** The promise chain of POST /posts. *)
Definition create_chain (Post_create toObject : value → M value) (doc : value) : M unit :=
  catch
    (post ← Post_create doc;
     obj ← toObject post;
     body ← alloc (Instance Object {["post" := obj]});
     res_json 201 (VObj body))
    handle.

(** POST /posts, after [requireToken] has set [req.user]. *)
Definition post_posts (Post_create toObject : value → M value) (req : value) : M unit :=
  body ← get req "body"; post ← get body "post";
  user ← get req "user"; id ← get_id user;
  set_prop post "owner" id;;
  body ← get req "body"; doc ← get body "post";
  create_chain Post_create toObject doc.

End PostRoutesRest.

(** * Specifications *)

(** ** Vocabulary *)

(** The address the next allocation returns. *)
Definition next (s : state) : loc := fresh (dom (heap s)).

(** The state after one allocation. *)
Definition grows (o : object) (s : state) : state :=
  set_heap (<[next s := o]> (heap s)) s.

(** An error object as the constructors of custom_errors leave it. *)
Definition error_object (c : class) (name message : string) : object :=
  Instance c {[ "name" := VStr name; "message" := VStr message ]}.

(** [m] throws a newly built error of class [c] with this name and message,
    and does nothing else. *)
Definition raises {A} (m : M A) (s : state) (c : class) (name message : string) : Prop :=
  m s = (Throw (VObj (next s)), grows (error_object c name message) s).

(** [m] returns a newly built error of class [c] with this name and message. *)
Definition constructs (m : M value) (s : state) (c : class) (name message : string) : Prop :=
  m s = (Ok (VObj (next s)), grows (error_object c name message) s).

(** [v.k] is the own property [w] of an instance. *)
Definition field (s : state) (v : value) (k : string) (w : value) : Prop :=
  ∃ l c props,
    v = VObj l ∧ heap s !! l = Some (Instance c props) ∧ props !! k = Some w.

(** [v] is an identifier object that holds [a]. *)
Definition identifier (s : state) (v : value) (a : string) : Prop :=
  ∃ l, v = VObj l ∧ heap s !! l = Some (ObjectID a).

(** The authenticated caller of a request: [requestObject.user._id]. *)
Definition identity (s : state) (requestObject : value) (a : string) : Prop :=
  ∃ user _id,
    field s requestObject "user" user ∧ field s user "_id" _id ∧
    identifier s _id a.

(** [resource.owner] and [resource._id]. *)
Definition owner_is (s : state) (resource : value) (b : string) : Prop :=
  ∃ o, field s resource "owner" o ∧ identifier s o b.

Definition id_is (s : state) (resource : value) (b : string) : Prop :=
  ∃ i, field s resource "_id" i ∧ identifier s i b.

(** [s'] has every cell of [s] as it is in [s], possibly more cells, and
    the same posts and responses. *)
Definition ext (s s' : state) : Prop :=
  heap s ⊆ heap s' ∧ posts s' = posts s ∧ sent s' = sent s.

(** The class of a thrown error. *)
Definition kind (s : state) (e : value) : option class :=
  match e with
  | VObj l =>
      match heap s !! l with
      | Some (Instance c _) => Some c
      | _ => None
      end
  | _ => None
  end.

(** Two runs end alike: the same value returned, or errors of the same
    class thrown. *)
Definition same_outcome {A} (r1 : result A) (s1 : state)
    (r2 : result A) (s2 : state) : Prop :=
  match r1, r2 with
  | Ok a, Ok b => a = b
  | Throw e1, Throw e2 => ∃ c, kind s1 e1 = Some c ∧ kind s2 e2 = Some c
  | Unmodelled, Unmodelled => True
  | _, _ => False
  end.

(** Calling [m] in [s] and then again: the first call changes no cell, post
    or response that was there (at most it adds the error it throws), on a
    normal return it changes nothing at all, and the second call ends as the
    first. *)
Definition repeatable {A} (m : M A) (s : state) : Prop :=
  let '(r1, s1) := m s in
  let '(r2, s2) := m s1 in
  ext s s1 ∧ (∀ a, r1 = Ok a → s1 = s) ∧ same_outcome r1 s1 r2 s2.

(** A computation that only reads: it returns without a change, or throws
    an error it has just built, and it does the same in every larger
    state. *)
Definition reads_only {A} (m : M A) : Prop :=
  ∀ s,
    match m s with
    | (Ok a, s1) => s1 = s ∧ ∀ s', ext s s' → m s' = (Ok a, s')
    | (Throw e, s1) =>
        ∃ c props,
          e = VObj (next s) ∧ s1 = grows (Instance c props) s ∧
          ∀ s', ext s s' →
            m s' = (Throw (VObj (next s')), grows (Instance c props) s')
    | (Unmodelled, s1) => s1 = s
    end.

(** The falsy values that a caller can write down. *)
Definition falsy_values : list value :=
  [ VUndefined; VNull; VBool false;
    VNum (S754_zero false); VNum (S754_zero true); VNum S754_nan;
    VBigInt 0; VStr "" ].

(** [m] leaves the posts and the responses as they are. *)
Definition keeps_store {A} (m : M A) : Prop :=
  ∀ s, posts (m s).2 = posts s ∧ sent (m s).2 = sent s.

(** One round of the loop of PATCH /posts/:id on the properties of the
    body, and the body the loop leaves behind. *)
Definition drop_if_empty (m : gmap string value) (key : string) : gmap string value :=
  if decide (m !! key = Some (VStr "")) then delete key m else m.

Definition strip (props : gmap string value) : gmap string value :=
  filter (λ kv, kv.2 ≠ VStr "") (delete "owner" props).

(** [m] throws nothing but a newly built object that satisfies [P], and
    then does nothing else. *)
Definition raises_only {A} (P : object → Prop) (m : M A) : Prop :=
  ∀ s e s', m s = (Throw e, s') → ∃ o, P o ∧ e = VObj (next s) ∧ s' = grows o s.

(** The built-in error of a read on [undefined] or [null] and of a call of
    what is no function. *)
Definition raises_TypeError {A} (m : M A) (s : state) : Prop :=
  m s = (Throw (VObj (next s)), grows (Instance TypeError ∅) s).

(** The own property [k] of [v], and the identifier an object holds, as
    functions. *)
Definition prop (s : state) (v : value) (k : string) : option value :=
  match v with
  | VObj l =>
      match heap s !! l with
      | Some (Instance _ props) => props !! k
      | _ => None
      end
  | _ => None
  end.

Definition id_of (s : state) (v : value) : option string :=
  match v with
  | VObj l =>
      match heap s !! l with
      | Some (ObjectID a) => Some a
      | _ => None
      end
  | _ => None
  end.

(** The identifier of the populated owner of a post: [post.owner._id]. *)
Definition populated_owner (s : state) (post : value) : option string :=
  owner ← prop s post "owner"; _id ← prop s owner "_id"; id_of s _id.

(** The posts of [a] among [posts], in the order of [posts]. *)
Definition posts_of (s : state) (a : string) (posts : list value) : list value :=
  filter (λ post, populated_owner s post = Some a) posts.

(** [req.params.id] *)
Definition param_id (s : state) (req id : value) : Prop :=
  ∃ params, field s req "params" params ∧ field s params "id" id.

(** [v] is an object on which [k] is missing, [undefined] or [null]. *)
Definition no_value (s : state) (v : value) (k : string) : Prop :=
  ∃ l c props,
    v = VObj l ∧ heap s !! l = Some (Instance c props) ∧
    (props !! k = None ∨ props !! k = Some VUndefined ∨ props !! k = Some VNull).

(** A PATCH request as the handler receives it: the request object with
    its [body], [params] and [user], the caller [a], the identifier [id] of
    the route, and [req.body.post], which is the object at [p] with
    properties [props] and is none of the other objects. *)
Definition patch_request (s : state) (req : value) (a : string) (id : value)
    (p : loc) (c : class) (props : gmap string value) : Prop :=
  ∃ r b q u ui cr cb cq cu pr pb pq pu,
    req = VObj r ∧
    heap s !! r = Some (Instance cr pr) ∧
    pr !! "body" = Some (VObj b) ∧ pr !! "params" = Some (VObj q) ∧
    pr !! "user" = Some (VObj u) ∧
    heap s !! b = Some (Instance cb pb) ∧ pb !! "post" = Some (VObj p) ∧
    heap s !! q = Some (Instance cq pq) ∧ pq !! "id" = Some id ∧
    heap s !! u = Some (Instance cu pu) ∧ pu !! "_id" = Some (VObj ui) ∧
    heap s !! ui = Some (ObjectID a) ∧
    heap s !! p = Some (Instance c props) ∧
    p ≠ r ∧ p ≠ b ∧ p ≠ q ∧ p ≠ u.


(** [m] changes no object that exists: all it does to the heap is to add
    objects. *)
Definition allocates_only {A} (m : M A) : Prop :=
  ∀ s, heap s ⊆ heap (m s).2.

(** A POST /posts request as the handler receives it: the caller is the
    document at [req.user] with identifier [a], and [req.body.post] is the
    object at [p] with properties [props], none of the other objects. *)
Definition create_request (s : state) (req : value) (a : string)
    (p : loc) (c : class) (props : gmap string value) : Prop :=
  ∃ r b u ui cr cb pr pb pu,
    req = VObj r ∧
    heap s !! r = Some (Instance cr pr) ∧
    pr !! "body" = Some (VObj b) ∧ pr !! "user" = Some (VObj u) ∧
    heap s !! b = Some (Instance cb pb) ∧ pb !! "post" = Some (VObj p) ∧
    heap s !! u = Some (Instance Document pu) ∧
    pu !! "id" = None ∧ pu !! "_id" = Some (VObj ui) ∧
    heap s !! ui = Some (ObjectID a) ∧
    heap s !! p = Some (Instance c props) ∧
    p ≠ r ∧ p ≠ b ∧ p ≠ u.

(** ** A post, its owner and another user *)

Module Scenario.

Definition alice : string := "aaaaaaaaaaaaaaaaaaaaaaaa".
Definition bob : string := "bbbbbbbbbbbbbbbbbbbbbbbb".
Definition post_id : string := "000000000000000000000001".

(** The request object, at address 1. *)
Definition req : value := VObj 1.

(** The heap when a request of [caller] for the post arrives, with [post]
    as [req.body.post]; [more] holds further objects. *)
Definition request_heap (caller : string) (post : gmap string value)
    (more : gmap loc object) : gmap loc object :=
  {[ 1%positive := Instance Object
         {[ "user" := VObj 2; "params" := VObj 4; "body" := VObj 5 ]};
     2%positive := Instance Document {[ "_id" := VObj 3 ]};
     3%positive := ObjectID caller;
     4%positive := Instance Object {[ "id" := VStr post_id ]};
     5%positive := Instance Object {[ "post" := VObj 6 ]};
     6%positive := Instance Object post ]} ∪ more.

(** Alice's post as it is stored. *)
Definition stored : gmap string post_doc :=
  {[ post_id := PostDoc alice {[ "text" := VStr "hello" ]} ]}.

(** Alice's post as a loaded document, at address 8. *)
Definition loaded : gmap loc object :=
  {[ 8%positive := Instance Document
         {[ "_id" := VObj 9; "owner" := VObj 10; "text" := VStr "hello" ]};
     9%positive := ObjectID post_id;
     10%positive := ObjectID alice ]}.

(** A user object as [toObject] hands it to the transform, at address 8. *)
Definition user_object : gmap loc object :=
  {[ 8%positive := Instance Object
         {[ "email" := VStr "a@example.com"; "nickname" := VStr "alice";
            "hashedPassword" := VStr "$2b$10$hash" ]} ]}.

(** Bob sends PATCH /posts/:id for Alice's post with a new text. *)
Definition bob_patches_text : state :=
  State (request_heap bob {[ "text" := VStr "changed" ]} ∅) stored [].

(** Bob sends PATCH /posts/:id for Alice's post with a [$set] operator that
    names himself owner and empties the text. *)
Definition bob_patches_owner : state :=
  State
    (request_heap bob {[ "$set" := VObj 7 ]}
       {[ 7%positive := Instance Object
            {[ "owner" := VStr bob; "text" := VStr "" ]} ]})
    stored [].

(** Alice sends PATCH /posts/:id with an owner, an empty title and a new
    text at the top level of the body. *)
Definition alice_patches_fields : state :=
  State
    (request_heap alice
       {[ "owner" := VStr bob; "title" := VStr ""; "text" := VStr "changed" ]}
       ∅)
    stored [].

(** Bob, and Alice, send DELETE /posts/:id for Alice's post. *)
Definition bob_deletes : state := State (request_heap bob ∅ ∅) stored [].
Definition alice_deletes : state := State (request_heap alice ∅ ∅) stored [].

(** A guard is called with Alice's loaded post, by Alice and by Bob. *)
Definition alice_checks : state := State (request_heap alice ∅ loaded) stored [].
Definition bob_checks : state := State (request_heap bob ∅ loaded) stored [].

End Scenario.

(** ** Two posts as a query finds them *)

Module Feed.
Import Scenario.

(** Bob's post, the newer one, and Alice's post, each with its owner
    populated; further objects are in [more]. *)
Definition found_heap (caller : string) : gmap loc object :=
  request_heap caller ∅
    {[ 8%positive := Instance Document
          {[ "_id" := VObj 9; "owner" := VObj 10; "text" := VStr "newer" ]};
       9%positive := ObjectID "000000000000000000000002";
       10%positive := Instance Document
          {[ "_id" := VObj 11; "nickname" := VStr "bob" ]};
       11%positive := ObjectID bob;
       12%positive := Instance Document
          {[ "_id" := VObj 13; "owner" := VObj 14; "text" := VStr "hello" ]};
       13%positive := ObjectID post_id;
       14%positive := Instance Document
          {[ "_id" := VObj 15; "nickname" := VStr "alice" ]};
       15%positive := ObjectID alice ]}.

Definition found : list value := [VObj 8; VObj 12].

Definition alice_asks : state := State (found_heap alice) stored [].

(** A query that finds the two posts, and a [toObject] that returns the
    document itself. *)
Definition find_both : M (list value) := mret found.
Definition toObject_same (doc : value) : M value := mret doc.

(** Alice sends POST /posts with an owner of her choosing in the body. *)
Definition alice_creates : state :=
  State
    (request_heap alice {[ "owner" := VStr bob; "text" := VStr "new" ]} ∅)
    stored [].

End Feed.

(** ** Running the monad *)

Lemma next_fresh s : heap s !! next s = None.
Proof. apply (not_elem_of_dom (D := gset loc)). unfold next. apply is_fresh. Qed.

Lemma bind_Ok {A B} (m : M A) (f : A → M B) s a s1 :
  m s = (Ok a, s1) → (m ≫= f) s = f a s1.
Proof. intros H. unfold mbind, M_bind. by rewrite H. Qed.

Lemma bind_Throw {A B} (m : M A) (f : A → M B) s e s1 :
  m s = (Throw e, s1) → (m ≫= f) s = (Throw e, s1).
Proof. intros H. unfold mbind, M_bind. by rewrite H. Qed.

Lemma bind_Unmodelled {A B} (m : M A) (f : A → M B) s s1 :
  m s = (Unmodelled, s1) → (m ≫= f) s = (Unmodelled, s1).
Proof. intros H. unfold mbind, M_bind. by rewrite H. Qed.

Lemma read_Some s l o : heap s !! l = Some o → read l s = (Ok o, s).
Proof. intros H. unfold read. by rewrite H. Qed.

Lemma get_field s v k w : field s v k w → get v k s = (Ok w, s).
Proof.
  intros (l & c & props & -> & Hl & Hk). unfold get.
  rewrite (bind_Ok _ _ _ _ _ (read_Some _ _ _ Hl)). by rewrite Hk.
Qed.

Lemma set_heap_id s : set_heap (heap s) s = s.
Proof. by destruct s. Qed.

Lemma alloc_run s o : alloc o s = (Ok (next s), grows o s).
Proof. reflexivity. Qed.

Lemma set_field_run s l c props k v :
  heap s !! l = Some (Instance c props) →
  set_field l k v s =
    (Ok tt, set_heap (<[l := Instance c (<[k := v]> props)]> (heap s)) s).
Proof.
  intros H. unfold set_field. by rewrite (bind_Ok _ _ _ _ _ (read_Some _ _ _ H)).
Qed.

(** Building an error: allocate, then the two assignments of the
    constructor. *)
Lemma new_error s c ctor name message :
  (∀ this, ctor this =
     (set_field this "name" (VStr name);;
      set_field this "message" (VStr message))) →
  constructs (new c ctor) s c name message.
Proof.
  intros Hctor. unfold constructs, new.
  rewrite (bind_Ok _ _ _ _ _ (alloc_run s _)), Hctor.
  erewrite bind_Ok; [reflexivity|].
  erewrite bind_Ok; [|apply set_field_run; apply lookup_insert_eq].
  erewrite set_field_run; [|apply lookup_insert_eq].
  unfold grows, set_heap. cbn [heap posts sent].
  rewrite !insert_insert_eq. unfold error_object. do 3 f_equal.
Qed.

Lemma throw_new {A} s c ctor name message :
  constructs (new c ctor) s c name message →
  raises (A := A) (e ← new c ctor; throw e) s c name message.
Proof. intros H. unfold raises. by rewrite (bind_Ok _ _ _ _ _ H). Qed.

Section CustomErrorsSpec.
Import CustomErrors.

Lemma new_OwnershipError s :
  constructs (new OwnershipError OwnershipError_constructor) s OwnershipError
    "OwnershipError"
    "The provided token does not match the owner of this document".
Proof. by apply new_error. Qed.

Lemma new_UserValidationError s :
  constructs (new UserValidationError UserValidationError_constructor) s
    UserValidationError "UserValidationError"
    "The provided token does not match the current user ID".
Proof. by apply new_error. Qed.

Lemma new_DocumentNotFoundError s :
  constructs (new DocumentNotFoundError DocumentNotFoundError_constructor) s
    DocumentNotFoundError "DocumentNotFoundError"
    "The provided ID doesn't match any documents".
Proof. by apply new_error. Qed.

Lemma new_BadParamsError s :
  constructs (new BadParamsError BadParamsError_constructor) s
    BadParamsError "BadParamsError"
    "A required parameter was omitted or invalid".
Proof. by apply new_error. Qed.

End CustomErrorsSpec.

(** ** Computations that only read *)

Lemma ext_refl s : ext s s.
Proof. by repeat split. Qed.

Lemma ext_grows o s : ext s (grows o s).
Proof.
  repeat split. unfold grows, set_heap. cbn [heap].
  apply insert_subseteq, next_fresh.
Qed.

Lemma reads_only_ret {A} (a : A) : reads_only (mret a).
Proof. intros s. by split. Qed.

Lemma reads_only_unmodelled {A} : reads_only (unmodelled (A := A)).
Proof. by intros s. Qed.

Lemma reads_only_bind {A B} (m : M A) (f : A → M B) :
  reads_only m → (∀ a, reads_only (f a)) → reads_only (m ≫= f).
Proof.
  intros Hm Hf s. specialize (Hm s). unfold mbind, M_bind.
  destruct (m s) as [[a|e|] s1] eqn:Hms.
  - destruct Hm as [-> Hm]. specialize (Hf a s).
    destruct (f a s) as [[b|e|] s2] eqn:Hfs.
    + destruct Hf as [-> Hf]. split; [done|].
      intros s' Hs'. rewrite (Hm s' Hs'). by apply Hf.
    + destruct Hf as (c & props & -> & -> & Hf). exists c, props.
      repeat split. intros s' Hs'. rewrite (Hm s' Hs'). by apply Hf.
    + done.
  - destruct Hm as (c & props & -> & -> & Hm). exists c, props.
    repeat split. intros s' Hs'. by rewrite (Hm s' Hs').
  - done.
Qed.

Lemma reads_only_if {A} (b : bool) (m1 m2 : M A) :
  reads_only m1 → reads_only m2 → reads_only (if b then m1 else m2).
Proof. by destruct b. Qed.

Lemma reads_only_read l : reads_only (read l).
Proof.
  intros s. unfold read. destruct (heap s !! l) as [o|] eqn:Hl; [|done].
  split; [done|]. intros s' (Hh & _ & _).
  by rewrite (lookup_weaken _ _ _ _ Hl Hh).
Qed.

Lemma reads_only_throw_new {A} c ctor name message :
  (∀ s, constructs (new c ctor) s c name message) →
  reads_only (A := A) (e ← new c ctor; throw e).
Proof.
  intros Hnew s. rewrite (throw_new (A := A) s _ _ _ _ (Hnew s)).
  eexists _, _. repeat split. intros s' _.
  apply (throw_new (A := A) s' _ _ _ _ (Hnew s')).
Qed.

Lemma reads_only_type_error {A} : reads_only (type_error (A := A)).
Proof. intros s. exists TypeError, ∅. by repeat split. Qed.

Ltac reads_only_leaf :=
  first [ apply reads_only_ret | apply reads_only_unmodelled | apply reads_only_type_error ].

Lemma reads_only_get v k : reads_only (get v k).
Proof.
  destruct v; cbn [get]; try reads_only_leaf.
  apply reads_only_bind; [apply reads_only_read|].
  intros [?|? ?]; reads_only_leaf.
Qed.

Lemma reads_only_ObjectID_equals id other : reads_only (ObjectID_equals id other).
Proof.
  destruct other; cbn [ObjectID_equals]; try reads_only_leaf.
  apply reads_only_bind; [apply reads_only_read|].
  intros [?|? ?]; [reads_only_leaf|]. case_decide; reads_only_leaf.
Qed.

Lemma reads_only_call_equals recv arg : reads_only (call_equals recv arg).
Proof.
  destruct recv; cbn [call_equals]; try reads_only_leaf.
  apply reads_only_bind; [apply reads_only_read|].
  intros [?|c ?]; [apply reads_only_ObjectID_equals|].
  destruct c; try case_decide; reads_only_leaf.
Qed.

(** What a computation that only reads does when it is called twice. *)
Lemma reads_only_repeatable {A} (m : M A) s : reads_only m → repeatable m s.
Proof.
  intros Hm. unfold repeatable. pose proof (Hm s) as H.
  destruct (m s) as [[a|e|] s1] eqn:Hms.
  - destruct H as [-> H]. rewrite Hms. repeat split; auto using ext_refl.
  - destruct H as (c & props & -> & -> & H).
    rewrite (H _ (ext_grows _ s)). split; [apply ext_grows|]. split; [done|].
    exists c. unfold kind, grows, set_heap. cbn [heap].
    by rewrite !lookup_insert_eq.
  - subst s1. rewrite Hms. repeat split; auto using ext_refl.
Qed.

(** ** The guards of custom_errors *)

Section Guards.
Import CustomErrors.

(** C6. Each of the four error classes, whenever and in whatever state it is
    constructed, yields an object with the fixed name and message of its
    kind: OwnershipError, UserValidationError, DocumentNotFoundError and
    BadParamsError with the messages of the table. *)
Theorem errors_carry_fixed_name_and_message :
  ∀ s : state,
    constructs (new OwnershipError OwnershipError_constructor) s
      OwnershipError "OwnershipError"
      "The provided token does not match the owner of this document" ∧
    constructs (new UserValidationError UserValidationError_constructor) s
      UserValidationError "UserValidationError"
      "The provided token does not match the current user ID" ∧
    constructs (new DocumentNotFoundError DocumentNotFoundError_constructor) s
      DocumentNotFoundError "DocumentNotFoundError"
      "The provided ID doesn't match any documents" ∧
    constructs (new BadParamsError BadParamsError_constructor) s
      BadParamsError "BadParamsError"
      "A required parameter was omitted or invalid".
Proof.
  intros s. repeat split.
  - apply new_OwnershipError.
  - apply new_UserValidationError.
  - apply new_DocumentNotFoundError.
  - apply new_BadParamsError.
Qed.

Lemma handle404_falsy s v :
  ToBoolean v = false →
  raises (handle404 v) s DocumentNotFoundError "DocumentNotFoundError"
    "The provided ID doesn't match any documents".
Proof.
  intros H. unfold handle404. rewrite H. cbn [negb].
  apply throw_new, new_DocumentNotFoundError.
Qed.

Lemma handle404_truthy s v :
  ToBoolean v = true → handle404 v s = (Ok v, s).
Proof. intros H. unfold handle404. by rewrite H. Qed.

(** C4. [handle404] of [null] and of [undefined] throws a
    DocumentNotFoundError; [handle404] of a record, that is of any reference
    to an object, returns that very reference and leaves the state as it
    was, so nothing is copied or changed. *)
Theorem handle404_absent_or_same_record :
  ∀ (s : state) (l : loc),
    raises (handle404 VNull) s DocumentNotFoundError "DocumentNotFoundError"
      "The provided ID doesn't match any documents" ∧
    raises (handle404 VUndefined) s DocumentNotFoundError "DocumentNotFoundError"
      "The provided ID doesn't match any documents" ∧
    handle404 (VObj l) s = (Ok (VObj l), s).
Proof.
  intros s l. split; [|split].
  - by apply handle404_falsy.
  - by apply handle404_falsy.
  - by apply handle404_truthy.
Qed.

(** C8. [handle404] throws a DocumentNotFoundError on every falsy argument,
    among them 0, the empty string, false and NaN besides null and
    undefined, and it returns its argument, with the state as it was, exactly
    when the argument is truthy. *)
Theorem handle404_follows_truthiness :
  ∀ (s : state) (v : value),
    Forall (λ w, ToBoolean w = false) falsy_values ∧
    (ToBoolean v = false ↔
       raises (handle404 v) s DocumentNotFoundError "DocumentNotFoundError"
         "The provided ID doesn't match any documents") ∧
    (ToBoolean v = true ↔ handle404 v s = (Ok v, s)).
Proof.
  intros s v. split; [|split].
  - by repeat constructor.
  - split; [apply handle404_falsy|].
    intros Hr. destruct (ToBoolean v) eqn:Hv; [|done].
    unfold raises in Hr. by rewrite (handle404_truthy s v Hv) in Hr.
  - split; [apply handle404_truthy|].
    intros Hr. destruct (ToBoolean v) eqn:Hv; [done|].
    pose proof (handle404_falsy s v Hv) as Hf.
    unfold raises in Hf. by rewrite Hf in Hr.
Qed.

Lemma call_equals_identifiers s x y a b :
  identifier s x a → identifier s y b →
  call_equals x y s = (Ok (String.eqb a b), s).
Proof.
  intros (lx & -> & Hx) (ly & -> & Hy). unfold call_equals.
  rewrite (bind_Ok _ _ _ _ _ (read_Some _ _ _ Hx)). unfold ObjectID_equals.
  by rewrite (bind_Ok _ _ _ _ _ (read_Some _ _ _ Hy)).
Qed.

Lemma requireOwnership_run s req res a b :
  identity s req a → owner_is s res b →
  requireOwnership req res s =
    (if String.eqb a b then mret tt
     else e ← new OwnershipError OwnershipError_constructor; throw e) s.
Proof.
  intros (user & _id & Hu & Hi & Ha) (o & Ho & Hb). unfold requireOwnership.
  rewrite (bind_Ok _ _ _ _ _ (get_field _ _ _ _ Hu)).
  rewrite (bind_Ok _ _ _ _ _ (get_field _ _ _ _ Hi)).
  rewrite (bind_Ok _ _ _ _ _ (get_field _ _ _ _ Ho)).
  rewrite (bind_Ok _ _ _ _ _ (call_equals_identifiers _ _ _ _ _ Ha Hb)).
  by destruct (String.eqb a b).
Qed.

Lemma validateUser_run s req res a b :
  identity s req a → id_is s res b →
  validateUser req res s =
    (if String.eqb a b then mret tt
     else e ← new UserValidationError UserValidationError_constructor; throw e) s.
Proof.
  intros (user & _id & Hu & Hi & Ha) (o & Ho & Hb). unfold validateUser.
  rewrite (bind_Ok _ _ _ _ _ (get_field _ _ _ _ Hu)).
  rewrite (bind_Ok _ _ _ _ _ (get_field _ _ _ _ Hi)).
  rewrite (bind_Ok _ _ _ _ _ (get_field _ _ _ _ Ho)).
  rewrite (bind_Ok _ _ _ _ _ (call_equals_identifiers _ _ _ _ _ Ha Hb)).
  by destruct (String.eqb a b).
Qed.

(** C1. When the caller of the request is identified by [a] and the owner
    of the resource by [b]: if [a] and [b] are the same identifier,
    [requireOwnership] returns and the state is as it was; if they differ, it
    throws an OwnershipError whose message is exactly "The provided token
    does not match the owner of this document". *)
Theorem requireOwnership_checks_owner :
  ∀ (s : state) (req res : value) (a b : string),
    identity s req a → owner_is s res b →
    (a = b → requireOwnership req res s = (Ok tt, s)) ∧
    (a ≠ b →
       raises (requireOwnership req res) s OwnershipError "OwnershipError"
         "The provided token does not match the owner of this document").
Proof.
  intros s req res a b Ha Hb.
  unfold raises. rewrite (requireOwnership_run s req res a b Ha Hb). split.
  - intros ->. by rewrite String.eqb_refl.
  - intros Hne. apply String.eqb_neq in Hne. rewrite Hne.
    apply (throw_new (A := unit)), new_OwnershipError.
Qed.

Ltac scenario_field := eexists _, _, _; repeat split; vm_compute; reflexivity.
Ltac scenario_identifier := eexists; split; [reflexivity | vm_compute; reflexivity].

Lemma requireOwnership_checks_owner_witness :
  requireOwnership Scenario.req (VObj 8) Scenario.alice_checks
    = (Ok tt, Scenario.alice_checks) ∧
  raises (requireOwnership Scenario.req (VObj 8)) Scenario.bob_checks
    OwnershipError "OwnershipError"
    "The provided token does not match the owner of this document".
Proof.
  split.
  - apply (requireOwnership_checks_owner Scenario.alice_checks Scenario.req
             (VObj 8) Scenario.alice Scenario.alice).
    + exists (VObj 2), (VObj 3).
      split; [scenario_field | split; [scenario_field | scenario_identifier]].
    + exists (VObj 10). split; [scenario_field | scenario_identifier].
    + reflexivity.
  - apply (requireOwnership_checks_owner Scenario.bob_checks Scenario.req
             (VObj 8) Scenario.bob Scenario.alice).
    + exists (VObj 2), (VObj 3).
      split; [scenario_field | split; [scenario_field | scenario_identifier]].
    + exists (VObj 10). split; [scenario_field | scenario_identifier].
    + discriminate.
Defined.

(** C3. When the caller of the request is identified by [a] and the
    resource's own [_id] by [b]: [validateUser] returns, with the state as it
    was, if [a] and [b] are the same identifier, and otherwise throws a
    UserValidationError with its fixed message.  The [owner] of the resource
    plays no part. *)
Theorem validateUser_checks_own_id :
  ∀ (s : state) (req res : value) (a b : string),
    identity s req a → id_is s res b →
    (a = b → validateUser req res s = (Ok tt, s)) ∧
    (a ≠ b →
       raises (validateUser req res) s UserValidationError "UserValidationError"
         "The provided token does not match the current user ID").
Proof.
  intros s req res a b Ha Hb.
  unfold raises. rewrite (validateUser_run s req res a b Ha Hb). split.
  - intros ->. by rewrite String.eqb_refl.
  - intros Hne. apply String.eqb_neq in Hne. rewrite Hne.
    apply (throw_new (A := unit)), new_UserValidationError.
Qed.

Lemma validateUser_checks_own_id_witness :
  validateUser Scenario.req (VObj 2) Scenario.alice_checks
    = (Ok tt, Scenario.alice_checks) ∧
  raises (validateUser Scenario.req (VObj 8)) Scenario.alice_checks
    UserValidationError "UserValidationError"
    "The provided token does not match the current user ID".
Proof.
  split.
  - apply (validateUser_checks_own_id Scenario.alice_checks Scenario.req
             (VObj 2) Scenario.alice Scenario.alice).
    + exists (VObj 2), (VObj 3).
      split; [scenario_field | split; [scenario_field | scenario_identifier]].
    + exists (VObj 3). split; [scenario_field | scenario_identifier].
    + reflexivity.
  - apply (validateUser_checks_own_id Scenario.alice_checks Scenario.req
             (VObj 8) Scenario.alice Scenario.post_id).
    + exists (VObj 2), (VObj 3).
      split; [scenario_field | split; [scenario_field | scenario_identifier]].
    + exists (VObj 9). split; [scenario_field | scenario_identifier].
    + discriminate.
Defined.

(** C5. The comparison is on the identifier held, not on the reference:
    when [req.user._id] and [resource.owner] are two different objects (they
    are not [===]) that hold the same identifier, [requireOwnership]
    returns. *)
Theorem requireOwnership_compares_identifiers_not_references :
  ∀ (s : state) (req res user : value) (la lb : loc) (a : string),
    field s req "user" user → field s user "_id" (VObj la) →
    field s res "owner" (VObj lb) →
    heap s !! la = Some (ObjectID a) → heap s !! lb = Some (ObjectID a) →
    la ≠ lb →
    strict_eq (VObj la) (VObj lb) = false ∧
    requireOwnership req res s = (Ok tt, s).
Proof.
  intros s req res user la lb a Hu Hi Ho Ha Hb Hne. split.
  - cbn [strict_eq]. by apply bool_decide_eq_false.
  - rewrite (requireOwnership_run s req res a a).
    + by rewrite String.eqb_refl.
    + exists user, (VObj la). repeat split; [done..|]. by exists la.
    + exists (VObj lb). split; [done|]. by exists lb.
Qed.

Lemma requireOwnership_compares_identifiers_not_references_witness :
  strict_eq (VObj 3) (VObj 10) = false ∧
  requireOwnership Scenario.req (VObj 8) Scenario.alice_checks
    = (Ok tt, Scenario.alice_checks).
Proof.
  apply (requireOwnership_compares_identifiers_not_references
           Scenario.alice_checks Scenario.req (VObj 8) (VObj 2)
           3%positive 10%positive Scenario.alice).
  - scenario_field.
  - scenario_field.
  - scenario_field.
  - vm_compute; reflexivity.
  - vm_compute; reflexivity.
  - discriminate.
Defined.

Lemma reads_only_requireOwnership req res : reads_only (requireOwnership req res).
Proof.
  unfold requireOwnership.
  apply reads_only_bind; [apply reads_only_get|]. intros user.
  apply reads_only_bind; [apply reads_only_get|]. intros _id.
  apply reads_only_bind; [apply reads_only_get|]. intros owner.
  apply reads_only_bind; [apply reads_only_call_equals|]. intros same.
  apply reads_only_if; [|apply reads_only_ret].
  eapply reads_only_throw_new, new_OwnershipError.
Qed.

Lemma reads_only_validateUser req res : reads_only (validateUser req res).
Proof.
  unfold validateUser.
  apply reads_only_bind; [apply reads_only_get|]. intros user.
  apply reads_only_bind; [apply reads_only_get|]. intros _id.
  apply reads_only_bind; [apply reads_only_get|]. intros rid.
  apply reads_only_bind; [apply reads_only_call_equals|]. intros same.
  apply reads_only_if; [|apply reads_only_ret].
  eapply reads_only_throw_new, new_UserValidationError.
Qed.

Lemma reads_only_handle404 v : reads_only (handle404 v).
Proof.
  unfold handle404. apply reads_only_if; [|apply reads_only_ret].
  eapply reads_only_throw_new, new_DocumentNotFoundError.
Qed.

(** C7. Each of the three guards, called in any state on any arguments and
    then called again on the same arguments: the first call leaves every
    object, the posts and the responses as they were (all it may add is the
    error object it throws, and nothing at all on a normal return), and the
    second call ends as the first did, with the same value returned or an
    error of the same class thrown. *)
Theorem guards_are_deterministic_and_change_nothing :
  ∀ (s : state) (req res v : value),
    repeatable (requireOwnership req res) s ∧
    repeatable (validateUser req res) s ∧
    repeatable (handle404 v) s.
Proof.
  intros s req res v. split; [|split]; apply reads_only_repeatable.
  - apply reads_only_requireOwnership.
  - apply reads_only_validateUser.
  - apply reads_only_handle404.
Qed.

End Guards.

(** ** The user schema *)

Section UserModelSpec.
Import UserModel.

Lemma delete_prop_run s l c props k :
  heap s !! l = Some (Instance c props) →
  delete_prop (VObj l) k s =
    (Ok tt, set_heap (<[l := Instance c (delete k props)]> (heap s)) s).
Proof.
  intros H. unfold delete_prop.
  by rewrite (bind_Ok _ _ _ _ _ (read_Some _ _ _ H)).
Qed.

(** C10. The transform applied to a user object returns that object with
    [hashedPassword] removed; every other property of it, and every other
    object (the document among them), is as it was; and the outcome is the
    same whatever password hash the object held. *)
Theorem transform_removes_hashedPassword :
  ∀ (s : state) (_doc : value) (u : loc) (c : class) (props : gmap string value),
    heap s !! u = Some (Instance c props) →
    let out := delete "hashedPassword" props in
    let s' := set_heap (<[u := Instance c out]> (heap s)) s in
    transform _doc (VObj u) s = (Ok (VObj u), s') ∧
    out !! "hashedPassword" = None ∧
    (∀ k, k ≠ "hashedPassword" → out !! k = props !! k) ∧
    (∀ l, l ≠ u → heap s' !! l = heap s !! l) ∧
    (∀ h : value,
       transform _doc (VObj u)
         (set_heap (<[u := Instance c (<["hashedPassword" := h]> props)]> (heap s)) s)
       = (Ok (VObj u), s')).
Proof.
  intros s _doc u c props Hu out s'. repeat split.
  - unfold transform. by rewrite (bind_Ok _ _ _ _ _ (delete_prop_run _ _ _ _ _ Hu)).
  - apply lookup_delete_eq.
  - intros k Hk. by apply lookup_delete_ne.
  - intros l Hl. unfold s', set_heap. cbn [heap]. by apply lookup_insert_ne.
  - intros h. unfold transform.
    erewrite bind_Ok; [|apply delete_prop_run; cbn [heap set_heap];
                         apply lookup_insert_eq].
    unfold s', out, set_heap, mret, M_ret. cbn [heap posts sent].
    by rewrite insert_insert_eq, delete_insert_eq.
Qed.

Lemma transform_removes_hashedPassword_witness :
  let s := State Scenario.user_object ∅ [] in
  let out : gmap string value :=
    {[ "email" := VStr "a@example.com"; "nickname" := VStr "alice" ]} in
  transform VUndefined (VObj 8) s
    = (Ok (VObj 8), State {[ 8%positive := Instance Object out ]} ∅ []) ∧
  out !! "hashedPassword" = None.
Proof.
  intros s out.
  destruct (transform_removes_hashedPassword s VUndefined 8%positive Object
    {[ "email" := VStr "a@example.com"; "nickname" := VStr "alice";
       "hashedPassword" := VStr "$2b$10$hash" ]})
    as (Hrun & Hgone & _).
  - vm_compute; reflexivity.
  - split; [exact Hrun | exact Hgone].
Defined.

End UserModelSpec.

(** ** The post routes *)

Section PostRoutesSpec.
Import CustomErrors Mongoose ErrorHandler PostRoutes Scenario.

Lemma keeps_store_bind {A B} (m : M A) (f : A → M B) :
  keeps_store m → (∀ a, keeps_store (f a)) → keeps_store (m ≫= f).
Proof.
  intros Hm Hf s. specialize (Hm s). unfold mbind, M_bind.
  destruct (m s) as [[a|e|] s1]; cbn [snd] in *; [|done..].
  destruct (Hf a s1) as [-> ->]. done.
Qed.

Lemma keeps_store_reads_only {A} (m : M A) : reads_only m → keeps_store m.
Proof.
  intros Hm s. specialize (Hm s). destruct (m s) as [[a|e|] s1]; cbn [snd].
  - by destruct Hm as [-> _].
  - by destruct Hm as (c & props & _ & -> & _).
  - by subst.
Qed.

Lemma keeps_store_alloc o : keeps_store (alloc o).
Proof. by intros s. Qed.

Lemma keeps_store_hydrate i d : keeps_store (hydrate i d).
Proof.
  unfold hydrate.
  repeat (apply keeps_store_bind; [apply keeps_store_alloc|]; intros ?).
  by intros s.
Qed.

Lemma keeps_store_findById id : keeps_store (Post_findById id).
Proof.
  destruct id; cbn [Post_findById]; try by intros s.
  destruct (is_id s); [|by intros ?].
  intros s0. unfold mbind, M_bind, get_state.
  destruct (posts s0 !! s); [apply keeps_store_hydrate|done].
Qed.

(** The guards of DELETE /posts/:id: load, [handle404], [requireOwnership]. *)
Lemma delete_guards_keep_store req id :
  keeps_store
    (post ← Post_findById id; post ← handle404 post;
     requireOwnership req post;; mret post).
Proof.
  apply keeps_store_bind; [apply keeps_store_findById|]. intros post.
  apply keeps_store_bind; [apply keeps_store_reads_only, reads_only_handle404|]. intros post'.
  apply keeps_store_bind; [apply keeps_store_reads_only, reads_only_requireOwnership|].
  by intros _ s.
Qed.

Lemma handle_keeps_posts e s : posts (handle e s).2 = posts s.
Proof.
  destruct e; cbn [handle]; try done.
  unfold mbind, M_bind, read. by destruct (heap s !! l) as [[]|].
Qed.

(** DELETE /posts/:id does what C2 asks of a mutating route: it loads the
    post, runs the guards, and removes the post only when they return; when
    one of them throws, the posts are as they were and the error thrown is
    the value the error handler receives. *)
Lemma delete_guard_failure_keeps_posts s req params id :
  field s req "params" params → field s params "id" id →
  match (post ← Post_findById id; post ← handle404 post;
         requireOwnership req post;; mret post) s with
  | (Ok post, s1) =>
      posts s1 = posts s ∧
      delete_posts_id req s =
        catch (Document_remove post;; res_sendStatus 204) handle s1
  | (Throw e, s1) =>
      posts s1 = posts s ∧
      delete_posts_id req s = handle e s1 ∧
      posts (handle e s1).2 = posts s
  | (Unmodelled, s1) => delete_posts_id req s = (Unmodelled, s1)
  end.
Proof.
  intros Hp Hi. pose proof (delete_guards_keep_store req id s) as [Hk _].
  unfold delete_posts_id.
  rewrite (bind_Ok _ _ _ _ _ (get_field _ _ _ _ Hp)).
  rewrite (bind_Ok _ _ _ _ _ (get_field _ _ _ _ Hi)).
  unfold catch, mbind, M_bind in *.
  destruct (Post_findById id s) as [[post| |] s2]; cbn [snd] in *;
    [|by rewrite handle_keeps_posts|done].
  destruct (handle404 post s2) as [[post'| |] s3]; cbn [snd] in *;
    [|by rewrite handle_keeps_posts|done].
  destruct (requireOwnership req post' s3) as [[[]| |] s4]; cbn [snd] in *;
    [done|by rewrite handle_keeps_posts|done].
Qed.

(** *** The body of a PATCH request *)

Lemma strict_eq_empty (m : gmap string value) key :
  strict_eq (default VUndefined (m !! key)) (VStr "")
  = bool_decide (m !! key = Some (VStr "")).
Proof.
  destruct (m !! key) as [v|] eqn:Hv; simpl; [|done].
  destruct v; simpl; try done.
  destruct (String.eqb s "") eqn:Hs.
  - apply String.eqb_eq in Hs as ->. by rewrite bool_decide_eq_true_2.
  - apply String.eqb_neq in Hs. rewrite bool_decide_eq_false_2; [done|].
    congruence.
Qed.

Lemma drop_if_empty_lookup (m : gmap string value) key k v :
  drop_if_empty m key !! k = Some v ↔
  m !! k = Some v ∧ ¬ (k = key ∧ v = VStr "").
Proof.
  unfold drop_if_empty. destruct (decide (m !! key = Some (VStr ""))) as [He|He].
  - rewrite lookup_delete_Some. split.
    + intros [Hk Hv]. split; [done|]. by intros [-> _].
    + intros [Hv Hn]. split; [|done]. intros <-. apply Hn. split; [done|].
      congruence.
  - split; [|by intros [? _]].
    intros Hv. split; [done|]. intros [-> ->]. done.
Qed.

(** The loop visits each key once and deletes nothing but the visited key,
    so a key survives unless it is visited while bound to the empty
    string. *)
Lemma foldl_drop_if_empty ks (m : gmap string value) k v :
  foldl drop_if_empty m ks !! k = Some v ↔
  m !! k = Some v ∧ ¬ (k ∈ ks ∧ v = VStr "").
Proof.
  revert m. induction ks as [|k0 ks IH]; intros m; cbn [foldl].
  - split; [|by intros [? _]].
    intros Hv. split; [done|]. intros [Hin _]. by apply elem_of_nil in Hin.
  - rewrite IH, drop_if_empty_lookup, elem_of_cons. tauto.
Qed.

Lemma foldl_drop_if_empty_keys (m : gmap string value) :
  foldl drop_if_empty m (map_to_list m).*1 = filter (λ kv, kv.2 ≠ VStr "") m.
Proof.
  apply map_eq. intros k. apply option_eq. intros v.
  rewrite foldl_drop_if_empty, map_lookup_filter_Some. cbn.
  split; intros [Hv Hn]; (split; [done|]).
  - intros ->. apply Hn. split; [|done].
    apply list_elem_of_fmap. exists (k, VStr ""). split; [done|].
    by apply elem_of_map_to_list.
  - by intros [_ ?].
Qed.

Section PatchBody.
Context (s : state) (r b p q : loc).
Context (cr cb cq c : class) (pr pb pq props : gmap string value).
Hypothesis Hr : heap s !! r = Some (Instance cr pr).
Hypothesis Hbody : pr !! "body" = Some (VObj b).
Hypothesis Hparams : pr !! "params" = Some (VObj q).
Hypothesis Hb : heap s !! b = Some (Instance cb pb).
Hypothesis Hpost : pb !! "post" = Some (VObj p).
Hypothesis Hq : heap s !! q = Some (Instance cq pq).
Hypothesis Hp : heap s !! p = Some (Instance c props).
Hypothesis Hpr : p ≠ r.
Hypothesis Hpb : p ≠ b.
Hypothesis Hpq : p ≠ q.

(** The state while the handler edits the body: only the body changes. *)
Let editing (m : gmap string value) : state :=
  set_heap (<[p := Instance c m]> (heap s)) s.

Local Lemma editing_start : s = editing props.
Proof.
  unfold editing. rewrite insert_id by done. symmetry. apply set_heap_id.
Qed.

Local Lemma editing_body m :
  get (VObj r) "body" (editing m) = (Ok (VObj b), editing m).
Proof.
  apply get_field. exists r, cr, pr. repeat split; [|done].
  unfold editing, set_heap. cbn [heap]. by rewrite lookup_insert_ne.
Qed.

Local Lemma editing_post m :
  get (VObj b) "post" (editing m) = (Ok (VObj p), editing m).
Proof.
  apply get_field. exists b, cb, pb. repeat split; [|done].
  unfold editing, set_heap. cbn [heap]. by rewrite lookup_insert_ne.
Qed.

Local Lemma editing_params m :
  get (VObj r) "params" (editing m) = (Ok (VObj q), editing m).
Proof.
  apply get_field. exists r, cr, pr. repeat split; [|done].
  unfold editing, set_heap. cbn [heap]. by rewrite lookup_insert_ne.
Qed.

Local Lemma editing_id m :
  get (VObj q) "id" (editing m)
  = (Ok (default VUndefined (pq !! "id")), editing m).
Proof.
  unfold get. erewrite bind_Ok; cycle 1.
  { apply read_Some. unfold editing, set_heap. cbn [heap].
    rewrite lookup_insert_ne by done. reflexivity || eassumption. }
  reflexivity.
Qed.

Local Lemma editing_key m key :
  get (VObj p) key (editing m)
  = (Ok (default VUndefined (m !! key)), editing m).
Proof.
  unfold get. erewrite bind_Ok; cycle 1.
  { apply read_Some. unfold editing, set_heap. cbn [heap].
    rewrite lookup_insert_eq by done. reflexivity || eassumption. }
  reflexivity.
Qed.

Local Lemma editing_keys m :
  Object_keys (VObj p) (editing m) = (Ok (map_to_list m).*1, editing m).
Proof.
  unfold Object_keys. erewrite bind_Ok; cycle 1.
  { apply read_Some. unfold editing, set_heap. cbn [heap].
    rewrite lookup_insert_eq by done. reflexivity || eassumption. }
  reflexivity.
Qed.

Local Lemma editing_delete m key :
  delete_prop (VObj p) key (editing m) = (Ok tt, editing (delete key m)).
Proof.
  erewrite delete_prop_run.
  - unfold editing, set_heap. cbn [heap posts sent].
    by rewrite insert_insert_eq.
  - unfold editing, set_heap. cbn [heap]. by rewrite lookup_insert_eq.
Qed.

Ltac run H := erewrite bind_Ok by apply H; cbv beta.

Local Lemma editing_loop keys m :
  forEach keys (λ key,
    body ← get (VObj r) "body"; post ← get body "post";
    v ← get post key;
    if strict_eq v (VStr "") then
      body ← get (VObj r) "body"; post ← get body "post";
      delete_prop post key
    else mret tt) (editing m)
  = (Ok tt, editing (foldl drop_if_empty m keys)).
Proof.
  revert m. induction keys as [|key keys IH]; intros m; [done|].
  cbn [forEach foldl]. erewrite bind_Ok; [apply IH|].
  run editing_body. run editing_post. run editing_key.
  rewrite strict_eq_empty. unfold drop_if_empty.
  destruct (decide (m !! key = Some (VStr ""))) as [He|He].
  - rewrite bool_decide_eq_true_2 by done.
    run editing_body. run editing_post. apply editing_delete.
  - by rewrite bool_decide_eq_false_2.
Qed.

(** Before the update is called, the handler has removed from the body the
    top-level key [owner] and every top-level key bound to the empty string,
    and nothing else; the update then receives that body. *)
Lemma patch_strips_top_level_keys :
  PostRoutes.patch_posts_id (VObj r) s
  = PostRoutes.patch_chain (VObj r) (default VUndefined (pq !! "id")) (VObj p)
      (editing (strip props)) ∧
  strip props !! "owner" = None ∧
  (∀ k, strip props !! k ≠ Some (VStr "")) ∧
  (∀ k v, k ≠ "owner" → v ≠ VStr "" →
     props !! k = Some v → strip props !! k = Some v).
Proof.
  split; [|split; [|split]].
  - unfold PostRoutes.patch_posts_id. rewrite editing_start at 1.
    run editing_body. run editing_post. run editing_delete.
    run editing_body. run editing_post. run editing_keys.
    run editing_loop. rewrite foldl_drop_if_empty_keys. fold (strip props).
    run editing_params. run editing_id.
    run editing_body. run editing_post. done.
  - unfold strip. apply map_lookup_filter_None. left. apply lookup_delete_eq.
  - intros k Hk. unfold strip in Hk.
    apply map_lookup_filter_Some in Hk as [_ Hk]. by apply Hk.
  - intros k v Hk Hv Hkv. unfold strip. apply map_lookup_filter_Some.
    split; [|done]. by rewrite lookup_delete_ne.
Qed.

End PatchBody.

Example patch_strips_top_level_keys_alice :
  patch_posts_id req alice_patches_fields
  = patch_chain req (VStr post_id) (VObj 6)
      (State (request_heap alice {[ "text" := VStr "changed" ]} ∅) stored []).
Proof.
  pose proof (patch_strips_top_level_keys alice_patches_fields
    1%positive 5%positive 6%positive 4%positive Object Object Object Object
    {[ "user" := VObj 2; "params" := VObj 4; "body" := VObj 5 ]}
    {[ "post" := VObj 6 ]} {[ "id" := VStr post_id ]}
    {[ "owner" := VStr bob; "title" := VStr ""; "text" := VStr "changed" ]})
    as H.
  destruct H as [H _].
  1-7: vm_compute; reflexivity.
  1-3: discriminate.
  etrans; [exact H|]. f_equal.
Qed.

(** An update document without a [$set] operator, without [owner] and
    without empty strings at its top level (which is how the handler leaves
    a body that had no operator) keeps the owner of the stored post and
    writes no empty string. *)
Lemma update_without_operator_keeps_owner s l body asg d d' :
  heap s !! l = Some (Instance Object body) →
  body !! "$set" = None → body !! "owner" = None →
  (∀ k, body !! k ≠ Some (VStr "")) →
  read_update (VObj l) s = (Ok asg, s) → apply_update asg d = Some d' →
  doc_owner d' = doc_owner d ∧
  ∀ k, doc_fields d' !! k = Some (VStr "") → doc_fields d !! k = Some (VStr "").
Proof.
  intros Hl Hset Howner Hempty Hread Happly.
  unfold read_update in Hread.
  rewrite (bind_Ok _ _ _ _ _ (read_Some _ _ _ Hl)), Hset in Hread.
  rewrite delete_id in Hread by done.
  destruct (plain_keys body); [|done]. injection Hread as <-.
  unfold apply_update in Happly. rewrite Howner in Happly.
  repeat case_match; try done. injection Happly as <-. cbn. split; [done|].
  intros k Hk. apply lookup_union_Some_raw in Hk as [Hk|[_ Hk]]; [|done].
  by destruct (Hempty k).
Qed.

(** C2. PATCH /posts/:id applies the update before the ownership guard
    runs.  When Bob patches the text of Alice's post, the guard fails and
    the handler answers 403 with the OwnershipError message, yet the stored
    post has the new text.  DELETE /posts/:id, on the same post and caller,
    answers 403 and leaves the stored post as it was. *)
Theorem patch_updates_before_ownership_guard :
  posts bob_patches_text !! post_id
    = Some (PostDoc alice {[ "text" := VStr "hello" ]}) ∧
  (let '(r, s) := patch_posts_id req bob_patches_text in
   r = Ok tt ∧
   sent s = [ErrorJson 403
     (VStr "The provided token does not match the owner of this document")] ∧
   posts s !! post_id = Some (PostDoc alice {[ "text" := VStr "changed" ]})) ∧
  (let '(r, s) := delete_posts_id req bob_deletes in
   r = Ok tt ∧
   sent s = [ErrorJson 403
     (VStr "The provided token does not match the owner of this document")] ∧
   posts s = posts bob_deletes).
Proof. vm_compute. repeat split. Qed.

(** C9. The PATCH handler removes only the top-level [owner] key and the
    top-level keys bound to the empty string.  When Bob patches Alice's post
    with a body whose [$set] operator names him owner and empties the text,
    the body reaches the update as it was sent, the handler answers 200, and
    the stored post has Bob as owner and the empty string as text. *)
Theorem patch_set_operator_changes_owner :
  posts bob_patches_owner !! post_id
    = Some (PostDoc alice {[ "text" := VStr "hello" ]}) ∧
  (let '(r, s) := patch_posts_id req bob_patches_owner in
   r = Ok tt ∧
   heap s !! 6%positive = Some (Instance Object {[ "$set" := VObj 7 ]}) ∧
   (∃ body, sent s = [Json 200 body]) ∧
   posts s !! post_id = Some (PostDoc bob {[ "text" := VStr "" ]})).
Proof. vm_compute. repeat split. by eexists. Qed.

End PostRoutesSpec.

(** * Further properties *)

(** ** What the guards throw *)

Section GuardErrors.
Import CustomErrors.

Lemma raises_only_weaken {A} (P Q : object → Prop) (m : M A) :
  (∀ o, P o → Q o) → raises_only P m → raises_only Q m.
Proof.
  intros HPQ Hm s e s' Hs. destruct (Hm s e s' Hs) as (o & Ho & He).
  exists o. split; [by apply HPQ|done].
Qed.

Lemma raises_only_bind {A B} (P : object → Prop) (m : M A) (f : A → M B) :
  reads_only m → raises_only P m → (∀ a, raises_only P (f a)) →
  raises_only P (m ≫= f).
Proof.
  intros Hr Hm Hf s e s'. specialize (Hr s). specialize (Hm s).
  unfold mbind, M_bind. destruct (m s) as [[a|e0|] s1].
  - destruct Hr as [-> _]. apply Hf.
  - intros [= <- <-]. by apply Hm.
  - done.
Qed.

Lemma raises_only_if {A} (P : object → Prop) (b : bool) (m1 m2 : M A) :
  raises_only P m1 → raises_only P m2 → raises_only P (if b then m1 else m2).
Proof. by destruct b. Qed.

Lemma raises_only_ret {A} (P : object → Prop) (a : A) : raises_only P (mret a).
Proof. by intros s e s'. Qed.

Lemma raises_only_unmodelled {A} (P : object → Prop) :
  raises_only P (unmodelled (A := A)).
Proof. by intros s e s'. Qed.

Lemma raises_only_read (P : object → Prop) l : raises_only P (read l).
Proof. intros s e s'. unfold read. by destruct (heap s !! l). Qed.

Lemma raises_only_type_error {A} :
  raises_only (λ o, o = Instance TypeError ∅) (type_error (A := A)).
Proof. intros s e s' [= <- <-]. by eexists. Qed.

Lemma raises_only_throw_new {A} c ctor name message :
  (∀ s, constructs (new c ctor) s c name message) →
  raises_only (A := A) (λ o, o = error_object c name message)
    (e ← new c ctor; throw e).
Proof.
  intros Hnew s e s'. rewrite (throw_new (A := A) s _ _ _ _ (Hnew s)).
  intros [= <- <-]. by eexists.
Qed.

Ltac raises_only_leaf :=
  first [ apply raises_only_ret | apply raises_only_unmodelled
        | apply raises_only_type_error ].

Lemma raises_only_get v k :
  raises_only (λ o, o = Instance TypeError ∅) (get v k).
Proof.
  destruct v; cbn [get]; try raises_only_leaf.
  apply raises_only_bind; [apply reads_only_read|apply raises_only_read|].
  intros [?|? ?]; raises_only_leaf.
Qed.

Lemma raises_only_ObjectID_equals id other :
  raises_only (λ o, o = Instance TypeError ∅) (ObjectID_equals id other).
Proof.
  destruct other; cbn [ObjectID_equals]; try raises_only_leaf.
  apply raises_only_bind; [apply reads_only_read|apply raises_only_read|].
  intros [?|? ?]; [raises_only_leaf|]. case_decide; raises_only_leaf.
Qed.

Lemma raises_only_call_equals recv arg :
  raises_only (λ o, o = Instance TypeError ∅) (call_equals recv arg).
Proof.
  destruct recv; cbn [call_equals]; try raises_only_leaf.
  apply raises_only_bind; [apply reads_only_read|apply raises_only_read|].
  intros [?|c ?]; [apply raises_only_ObjectID_equals|].
  destruct c; try case_decide; raises_only_leaf.
Qed.

(** A comparing guard: three reads, the call of [equals], and the throw of
    the guard's own error. *)
Lemma raises_only_comparison (own : object) (k1 k2 : string)
    (req res : value) (fail : M unit) :
  raises_only (λ o, o = own) fail →
  raises_only (λ o, o = own ∨ o = Instance TypeError ∅)
    (user ← get req "user"; _id ← get user "_id"; other ← get res k2;
     same ← call_equals _id other;
     if negb same then fail else mret tt).
Proof.
  intros Hfail.
  apply raises_only_bind; [apply reads_only_get| |intros user].
  { eapply raises_only_weaken, raises_only_get. auto. }
  apply raises_only_bind; [apply reads_only_get| |intros _id].
  { eapply raises_only_weaken, raises_only_get. auto. }
  apply raises_only_bind; [apply reads_only_get| |intros other].
  { eapply raises_only_weaken, raises_only_get. auto. }
  apply raises_only_bind; [apply reads_only_call_equals| |intros same].
  { eapply raises_only_weaken, raises_only_call_equals. auto. }
  apply raises_only_if; [|apply raises_only_ret].
  eapply raises_only_weaken, Hfail. auto.
Qed.

(** X1. Whatever the arguments and the state, a guard throws nothing but a
    newly built error object, and throwing it is all it does: for
    [requireOwnership] an OwnershipError with its fixed name and message or
    a TypeError, for [validateUser] a UserValidationError with its fixed
    name and message or a TypeError, and for [handle404] a
    DocumentNotFoundError with its fixed name and message, never a
    TypeError. *)
Theorem guards_throw_only_their_errors :
  ∀ req res v : value,
    raises_only
      (λ o, o = error_object OwnershipError "OwnershipError"
                  "The provided token does not match the owner of this document"
            ∨ o = Instance TypeError ∅)
      (requireOwnership req res) ∧
    raises_only
      (λ o, o = error_object UserValidationError "UserValidationError"
                  "The provided token does not match the current user ID"
            ∨ o = Instance TypeError ∅)
      (validateUser req res) ∧
    raises_only
      (λ o, o = error_object DocumentNotFoundError "DocumentNotFoundError"
                  "The provided ID doesn't match any documents")
      (handle404 v).
Proof.
  intros req res v. split; [|split].
  - apply (raises_only_comparison _ "user" "owner").
    eapply raises_only_throw_new, new_OwnershipError.
  - apply (raises_only_comparison _ "user" "_id").
    eapply raises_only_throw_new, new_UserValidationError.
  - unfold handle404. apply raises_only_if; [|apply raises_only_ret].
    eapply raises_only_throw_new, new_DocumentNotFoundError.
Qed.

Lemma get_no_value s v k :
  no_value s v k →
  ∃ w, get v k s = (Ok w, s) ∧ (w = VUndefined ∨ w = VNull).
Proof.
  intros (l & c & props & -> & Hl & Hk). unfold get.
  rewrite (bind_Ok _ _ _ _ _ (read_Some _ _ _ Hl)).
  destruct Hk as [->|[->| ->]]; eexists; (split; [reflexivity|]); auto.
Qed.

Lemma get_of_no_value s w k :
  w = VUndefined ∨ w = VNull → raises_TypeError (get w k) s.
Proof. by intros [->| ->]. Qed.

(** X2. On a request object whose [user] is missing, [undefined] or [null],
    as it is when a route does without [requireToken], both comparing guards
    throw a TypeError, whatever the resource: they neither return nor throw
    their own error. *)
Theorem guards_throw_TypeError_without_user :
  ∀ (s : state) (req res : value),
    no_value s req "user" →
    raises_TypeError (requireOwnership req res) s ∧
    raises_TypeError (validateUser req res) s.
Proof.
  intros s req res Hu. destruct (get_no_value _ _ _ Hu) as (w & Hw & Hnull).
  pose proof (get_of_no_value s w "_id" Hnull) as Hid.
  unfold raises_TypeError, requireOwnership, validateUser in *.
  rewrite !(bind_Ok _ _ _ _ _ Hw). by rewrite !(bind_Throw _ _ _ _ _ Hid).
Qed.

Lemma guards_throw_TypeError_without_user_witness :
  let s := State {[ 1%positive := Instance Object {[ "params" := VObj 2 ]} ]} ∅ [] in
  raises_TypeError (requireOwnership (VObj 1) VNull) s ∧
  raises_TypeError (validateUser (VObj 1) VNull) s.
Proof.
  intros s. apply (guards_throw_TypeError_without_user s (VObj 1) VNull).
  eexists _, _, _. split; [reflexivity|]. split; [vm_compute; reflexivity|].
  left. vm_compute; reflexivity.
Defined.

Lemma call_equals_no_value s x a w :
  identifier s x a → w = VUndefined ∨ w = VNull →
  call_equals x w s = (Ok false, s).
Proof.
  intros (l & -> & Hl) Hw. unfold call_equals.
  rewrite (bind_Ok _ _ _ _ _ (read_Some _ _ _ Hl)). by destruct Hw as [->| ->].
Qed.

(** X3. A resource whose [owner] is missing, [undefined] or [null] has no
    owner for [requireOwnership]: every authenticated caller gets the
    OwnershipError.  Likewise [validateUser] throws its
    UserValidationError on a resource without an [_id]. *)
Theorem guards_reject_resource_without_identifier :
  ∀ (s : state) (req res : value) (a : string),
    identity s req a →
    (no_value s res "owner" →
       raises (requireOwnership req res) s OwnershipError "OwnershipError"
         "The provided token does not match the owner of this document") ∧
    (no_value s res "_id" →
       raises (validateUser req res) s UserValidationError "UserValidationError"
         "The provided token does not match the current user ID").
Proof.
  intros s req res a (user & _id & Hu & Hi & Ha). split; intros Hn;
    destruct (get_no_value _ _ _ Hn) as (w & Hw & Hnull);
    unfold raises, requireOwnership, validateUser;
    rewrite (bind_Ok _ _ _ _ _ (get_field _ _ _ _ Hu));
    rewrite (bind_Ok _ _ _ _ _ (get_field _ _ _ _ Hi));
    rewrite (bind_Ok _ _ _ _ _ Hw);
    rewrite (bind_Ok _ _ _ _ _ (call_equals_no_value _ _ _ _ Ha Hnull));
    cbn [negb].
  - apply (throw_new (A := unit)), new_OwnershipError.
  - apply (throw_new (A := unit)), new_UserValidationError.
Qed.

Lemma guards_reject_resource_without_identifier_witness :
  let s := State
    {[ 1%positive := Instance Object {[ "user" := VObj 2 ]};
       2%positive := Instance Document {[ "_id" := VObj 3 ]};
       3%positive := ObjectID Scenario.alice;
       4%positive := Instance Document {[ "owner" := VNull ]} ]} ∅ [] in
  raises (requireOwnership (VObj 1) (VObj 4)) s OwnershipError "OwnershipError"
    "The provided token does not match the owner of this document" ∧
  raises (validateUser (VObj 1) (VObj 4)) s UserValidationError
    "UserValidationError"
    "The provided token does not match the current user ID".
Proof.
  intros s.
  destruct (guards_reject_resource_without_identifier s (VObj 1) (VObj 4)
              Scenario.alice) as [Ho Hi].
  - exists (VObj 2), (VObj 3). split; [|split].
    + eexists _, _, _; repeat split; vm_compute; reflexivity.
    + eexists _, _, _; repeat split; vm_compute; reflexivity.
    + eexists; split; [reflexivity | vm_compute; reflexivity].
  - split.
    + apply Ho. eexists _, _, _. split; [reflexivity|].
      split; [vm_compute; reflexivity|]. right; right. vm_compute; reflexivity.
    + apply Hi. eexists _, _, _. split; [reflexivity|].
      split; [vm_compute; reflexivity|]. left. vm_compute; reflexivity.
Defined.

End GuardErrors.

(** ** Larger states, loaded posts, handled errors *)

Lemma ext_trans s1 s2 s3 : ext s1 s2 → ext s2 s3 → ext s1 s3.
Proof.
  intros (H1 & P1 & S1) (H2 & P2 & S2). repeat split.
  - by etrans.
  - congruence.
  - congruence.
Qed.

Lemma lookup_ext s s' l o : ext s s' → heap s !! l = Some o → heap s' !! l = Some o.
Proof. intros (Hh & _ & _) Hl. by eapply lookup_weaken. Qed.

Lemma lookup_next o s : heap (grows o s) !! next s = Some o.
Proof. unfold grows, set_heap. cbn [heap]. apply lookup_insert_eq. Qed.

Lemma field_ext s s' v k w : ext s s' → field s v k w → field s' v k w.
Proof.
  intros Hext (l & c & props & -> & Hl & Hk). exists l, c, props.
  repeat split; [|done]. by eapply lookup_ext.
Qed.

Lemma identifier_ext s s' v a : ext s s' → identifier s v a → identifier s' v a.
Proof.
  intros Hext (l & -> & Hl). exists l. split; [done|]. by eapply lookup_ext.
Qed.

Lemma identity_ext s s' req a : ext s s' → identity s req a → identity s' req a.
Proof.
  intros Hext (user & _id & Hu & Hi & Ha). exists user, _id.
  split; [|split]; eauto using field_ext, identifier_ext.
Qed.


Lemma catch_Ok {A} (m : M A) h s a s1 :
  m s = (Ok a, s1) → catch m h s = (Ok a, s1).
Proof. intros H. unfold catch. by rewrite H. Qed.

Lemma catch_Throw {A} (m : M A) h s e s1 :
  m s = (Throw e, s1) → catch m h s = h e s1.
Proof. intros H. unfold catch. by rewrite H. Qed.

(** The error handler on an error of custom_errors. *)
Lemma handle_error_object s e c name message :
  heap s !! e = Some (error_object c name message) →
  ErrorHandler.handle (VObj e) s
  = (Ok tt, push_sent (ErrorJson (ErrorHandler.status_of c) (VStr message)) s).
Proof.
  intros He. unfold ErrorHandler.handle.
  by rewrite (bind_Ok _ _ _ _ _ (read_Some _ _ _ He)).
Qed.

(** A chain that ends in an error of custom_errors, and its [catch]. *)
Lemma catch_raises (m : M unit) s0 s c name message :
  m s0 = (Throw (VObj (next s)), grows (error_object c name message) s) →
  catch m ErrorHandler.handle s0
  = (Ok tt, push_sent (ErrorJson (ErrorHandler.status_of c) (VStr message))
              (grows (error_object c name message) s)).
Proof.
  intros Hm. rewrite (catch_Throw _ _ _ _ _ Hm).
  apply (handle_error_object _ _ c name message), lookup_next.
Qed.

(** A loaded post: a new document whose [_id] and [owner] are identifier
    objects for the identifier asked for and the stored owner. *)
Lemma hydrate_run i d s :
  ∃ s' li lo ld props,
    Mongoose.hydrate i d s = (Ok (VObj ld), s') ∧ ext s s' ∧
    heap s' !! ld = Some (Instance Document props) ∧
    props !! "_id" = Some (VObj li) ∧ props !! "owner" = Some (VObj lo) ∧
    heap s' !! li = Some (ObjectID i) ∧
    heap s' !! lo = Some (ObjectID (doc_owner d)).
Proof.
  unfold Mongoose.hydrate.
  rewrite (bind_Ok _ _ _ _ _ (alloc_run _ _)).
  rewrite (bind_Ok _ _ _ _ _ (alloc_run _ _)).
  rewrite (bind_Ok _ _ _ _ _ (alloc_run _ _)).
  set (s1 := grows (ObjectID i) s).
  set (s2 := grows (ObjectID (doc_owner d)) s1).
  eexists _, (next s), (next s1), (next s2), _.
  split; [reflexivity|]. split; [|split; [|split; [|split; [|split]]]].
  - eauto using ext_trans, ext_grows.
  - apply lookup_next.
  - apply lookup_insert_eq.
  - by rewrite lookup_insert_ne, lookup_insert_eq.
  - apply (lookup_ext s1); [eauto using ext_trans, ext_grows|].
    apply lookup_next.
  - apply (lookup_ext s2); [apply ext_grows|]. apply lookup_next.
Qed.

Lemma loaded_owner_is s ld lo c props b :
  heap s !! ld = Some (Instance c props) → props !! "owner" = Some (VObj lo) →
  heap s !! lo = Some (ObjectID b) → owner_is s (VObj ld) b.
Proof.
  intros Hd Ho Hb. exists (VObj lo). split.
  - by exists ld, c, props.
  - by exists lo.
Qed.

Ltac run H := erewrite bind_Ok by apply H; cbv beta.

(** ** DELETE /posts/:id *)

Section DeleteRoute.
Import CustomErrors Mongoose ErrorHandler PostRoutes.

Lemma findById_missing s i :
  is_id i = true → posts s !! i = None →
  Post_findById (VStr i) s = (Ok VNull, s).
Proof.
  intros Hi Hnone. unfold Post_findById. rewrite Hi.
  unfold mbind, M_bind, get_state. by rewrite Hnone.
Qed.

Lemma findById_found s i d :
  is_id i = true → posts s !! i = Some d →
  Post_findById (VStr i) s = hydrate i d s.
Proof.
  intros Hi Hd. unfold Post_findById. rewrite Hi.
  unfold mbind, M_bind, get_state. by rewrite Hd.
Qed.

Lemma delete_missing_run s req i :
  param_id s req (VStr i) → is_id i = true → posts s !! i = None →
  delete_posts_id req s
  = (Ok tt,
     push_sent
       (ErrorJson 404 (VStr "The provided ID doesn't match any documents"))
       (grows (error_object DocumentNotFoundError "DocumentNotFoundError"
                 "The provided ID doesn't match any documents") s)).
Proof.
  intros (params & Hp & Hi) Hid Hnone. unfold delete_posts_id.
  run (get_field _ _ _ _ Hp). run (get_field _ _ _ _ Hi).
  apply (catch_raises _ s s DocumentNotFoundError "DocumentNotFoundError").
  run (findById_missing s i Hid Hnone).
  apply bind_Throw. by apply handle404_falsy.
Qed.

(** X4. DELETE /posts/:id for an identifier that no stored post has: the
    handler answers 404 with the message of DocumentNotFoundError and the
    posts are as they were, whoever the caller is. *)
Theorem delete_missing_post_answers_404 :
  ∀ (s : state) (req : value) (i : string),
    param_id s req (VStr i) → is_id i = true → posts s !! i = None →
    ∃ s',
      delete_posts_id req s = (Ok tt, s') ∧ posts s' = posts s ∧
      sent s' = (sent s ++
        [ErrorJson 404 (VStr "The provided ID doesn't match any documents")])%list.
Proof.
  intros s req i Hp Hid Hnone. eexists. split.
  - by apply (delete_missing_run s req i).
  - split; reflexivity.
Qed.

Lemma delete_missing_post_answers_404_witness :
  ∃ s',
    delete_posts_id Scenario.req
      (State (Scenario.request_heap Scenario.bob ∅ ∅) ∅ []) = (Ok tt, s') ∧
    posts s' = ∅ ∧
    sent s' =
      [ErrorJson 404 (VStr "The provided ID doesn't match any documents")].
Proof.
  apply (delete_missing_post_answers_404
           (State (Scenario.request_heap Scenario.bob ∅ ∅) ∅ [])
           Scenario.req Scenario.post_id).
  - exists (VObj 4).
    split; eexists _, _, _; repeat split; vm_compute; reflexivity.
  - vm_compute; reflexivity.
  - vm_compute; reflexivity.
Defined.

(** The guards of the handler on a stored post: the post is loaded and
    [requireOwnership] compares the caller with its stored owner. *)
Lemma delete_guards_run s req a i d :
  identity s req a → is_id i = true → posts s !! i = Some d →
  ∃ s1 li ld props,
    ext s s1 ∧
    heap s1 !! ld = Some (Instance Document props) ∧
    props !! "_id" = Some (VObj li) ∧ heap s1 !! li = Some (ObjectID i) ∧
    ∀ (k : value → M unit) (rest : M unit),
      (post ← Post_findById (VStr i); post ← handle404 post;
       (requireOwnership req post;; k post);; rest) s
      = (if String.eqb a (doc_owner d) then (k (VObj ld);; rest)
         else e ← new OwnershipError OwnershipError_constructor; throw e) s1.
Proof.
  intros Ha Hid Hd.
  destruct (hydrate_run i d s)
    as (s1 & li & lo & ld & props & Hrun & Hext & Hld & Hpi & Hpo & Hli & Hlo).
  exists s1, li, ld, props. do 4 (split; [done|]). intros k rest.
  rewrite <- (findById_found s i d Hid Hd) in Hrun.
  run Hrun. run (handle404_truthy s1 (VObj ld) eq_refl).
  unfold mbind at 1 2, M_bind at 1 2.
  rewrite (requireOwnership_run s1 req (VObj ld) a (doc_owner d));
    [|by eapply identity_ext|by eapply loaded_owner_is].
  destruct (String.eqb a (doc_owner d)); [reflexivity|].
  pose proof (throw_new (A := unit) s1 _ _ _ _ (new_OwnershipError s1)) as Hthrow.
  unfold raises in Hthrow. by rewrite Hthrow.
Qed.

Lemma Document_remove_run s ld li props i :
  heap s !! ld = Some (Instance Document props) →
  props !! "_id" = Some (VObj li) → heap s !! li = Some (ObjectID i) →
  Document_remove (VObj ld) s = (Ok tt, set_posts (delete i (posts s)) s).
Proof.
  intros Hld Hpi Hli. unfold Document_remove.
  rewrite (bind_Ok _ _ _ _ _ (read_Some _ _ _ Hld)), Hpi.
  by rewrite (bind_Ok _ _ _ _ _ (read_Some _ _ _ Hli)).
Qed.

Lemma delete_by_owner_run s req a i d :
  identity s req a → param_id s req (VStr i) → is_id i = true →
  posts s !! i = Some d → doc_owner d = a →
  ∃ s',
    delete_posts_id req s = (Ok tt, s') ∧ heap s ⊆ heap s' ∧
    posts s' = delete i (posts s) ∧
    sent s' = (sent s ++ [SendStatus 204])%list.
Proof.
  intros Ha (params & Hp & Hi) Hid Hd Hown.
  destruct (delete_guards_run s req a i d Ha Hid Hd)
    as (s1 & li & ld & props & (Hh & Hposts & Hsent) & Hld & Hpi & Hli & Hrun).
  unfold delete_posts_id.
  run (get_field _ _ _ _ Hp). run (get_field _ _ _ _ Hi).
  eexists. split; [|split].
  - apply catch_Ok.
    rewrite (Hrun Document_remove (res_sendStatus 204)).
    rewrite Hown, String.eqb_refl.
    run (Document_remove_run s1 ld li props i Hld Hpi Hli). reflexivity.
  - done.
  - cbn. by rewrite Hposts, Hsent.
Qed.

(** X5. DELETE /posts/:id by the owner of the post: the handler answers
    204 and the post, and no other post, is gone from the store. *)
Theorem delete_by_owner_removes_post :
  ∀ (s : state) (req : value) (a i : string) (d : post_doc),
    identity s req a → param_id s req (VStr i) → is_id i = true →
    posts s !! i = Some d → doc_owner d = a →
    ∃ s',
      delete_posts_id req s = (Ok tt, s') ∧
      posts s' = delete i (posts s) ∧
      sent s' = (sent s ++ [SendStatus 204])%list.
Proof.
  intros s req a i d Ha Hp Hid Hd Hown.
  destruct (delete_by_owner_run s req a i d Ha Hp Hid Hd Hown)
    as (s' & Hrun & _ & Hposts & Hsent).
  by exists s'.
Qed.

Lemma delete_by_owner_removes_post_witness :
  ∃ s',
    delete_posts_id Scenario.req Scenario.alice_deletes = (Ok tt, s') ∧
    posts s' = delete Scenario.post_id Scenario.stored ∧
    sent s' = [SendStatus 204].
Proof.
  apply (delete_by_owner_removes_post Scenario.alice_deletes Scenario.req
           Scenario.alice Scenario.post_id
           (PostDoc Scenario.alice {[ "text" := VStr "hello" ]})).
  - exists (VObj 2), (VObj 3). split; [|split].
    + eexists _, _, _; repeat split; vm_compute; reflexivity.
    + eexists _, _, _; repeat split; vm_compute; reflexivity.
    + eexists; split; [reflexivity | vm_compute; reflexivity].
  - exists (VObj 4).
    split; eexists _, _, _; repeat split; vm_compute; reflexivity.
  - vm_compute; reflexivity.
  - vm_compute; reflexivity.
  - reflexivity.
Defined.

(** X6. DELETE /posts/:id by a caller who is not the owner of the post:
    the handler answers 403 with the message of OwnershipError and the
    posts are as they were. *)
Theorem delete_by_other_user_answers_403 :
  ∀ (s : state) (req : value) (a i : string) (d : post_doc),
    identity s req a → param_id s req (VStr i) → is_id i = true →
    posts s !! i = Some d → doc_owner d ≠ a →
    ∃ s',
      delete_posts_id req s = (Ok tt, s') ∧
      posts s' = posts s ∧
      sent s' = (sent s ++
        [ErrorJson 403
           (VStr "The provided token does not match the owner of this document")])%list.
Proof.
  intros s req a i d Ha (params & Hp & Hi) Hid Hd Hown.
  destruct (delete_guards_run s req a i d Ha Hid Hd)
    as (s1 & li & ld & props & (Hh & Hposts & Hsent) & Hld & Hpi & Hli & Hrun).
  unfold delete_posts_id.
  run (get_field _ _ _ _ Hp). run (get_field _ _ _ _ Hi).
  eexists. split.
  - apply (catch_raises _ s s1 OwnershipError "OwnershipError").
    rewrite (Hrun Document_remove (res_sendStatus 204)).
    assert (String.eqb a (doc_owner d) = false) as ->
      by (apply String.eqb_neq; congruence).
    apply (throw_new (A := unit)), new_OwnershipError.
  - cbn. by rewrite Hposts, Hsent.
Qed.

Lemma delete_by_other_user_answers_403_witness :
  ∃ s',
    delete_posts_id Scenario.req Scenario.bob_deletes = (Ok tt, s') ∧
    posts s' = Scenario.stored ∧
    sent s' =
      [ErrorJson 403
         (VStr "The provided token does not match the owner of this document")].
Proof.
  apply (delete_by_other_user_answers_403 Scenario.bob_deletes Scenario.req
           Scenario.bob Scenario.post_id
           (PostDoc Scenario.alice {[ "text" := VStr "hello" ]})).
  - exists (VObj 2), (VObj 3). split; [|split].
    + eexists _, _, _; repeat split; vm_compute; reflexivity.
    + eexists _, _, _; repeat split; vm_compute; reflexivity.
    + eexists; split; [reflexivity | vm_compute; reflexivity].
  - exists (VObj 4).
    split; eexists _, _, _; repeat split; vm_compute; reflexivity.
  - vm_compute; reflexivity.
  - vm_compute; reflexivity.
  - discriminate.
Defined.



End DeleteRoute.

(** ** PATCH /posts/:id *)

Section PatchRoute.
Import CustomErrors Mongoose ErrorHandler PostRoutes.

Lemma allocates_only_bind {A B} (m : M A) (f : A → M B) :
  allocates_only m → (∀ a, allocates_only (f a)) → allocates_only (m ≫= f).
Proof.
  intros Hm Hf s. specialize (Hm s). unfold mbind, M_bind.
  destruct (m s) as [[a| |] s1]; cbn [snd] in *; [|done..].
  etrans; [exact Hm|apply Hf].
Qed.

Lemma allocates_only_catch {A} (m : M A) (h : value → M A) :
  allocates_only m → (∀ e, allocates_only (h e)) → allocates_only (catch m h).
Proof.
  intros Hm Hh s. specialize (Hm s). unfold catch.
  destruct (m s) as [[a|e|] s1]; cbn [snd] in *; [done| |done].
  etrans; [exact Hm|apply Hh].
Qed.

Lemma allocates_only_reads_only {A} (m : M A) : reads_only m → allocates_only m.
Proof.
  intros Hm s. specialize (Hm s). destruct (m s) as [[a|e|] s1]; cbn [snd].
  - by destruct Hm as [-> _].
  - destruct Hm as (c & props & _ & -> & _). apply ext_grows.
  - by subst.
Qed.

Lemma allocates_only_alloc o : allocates_only (alloc o).
Proof. intros s. apply ext_grows. Qed.

Lemma allocates_only_same_heap {A} (m : M A) :
  (∀ s, heap (m s).2 = heap s) → allocates_only m.
Proof. intros H s. by rewrite H. Qed.

Lemma allocates_only_hydrate i d : allocates_only (hydrate i d).
Proof.
  unfold hydrate.
  repeat (apply allocates_only_bind; [apply allocates_only_alloc|]; intros ?).
  by apply allocates_only_same_heap.
Qed.

Lemma allocates_only_read_update update : allocates_only (read_update update).
Proof.
  destruct update; cbn [read_update]; try by apply allocates_only_same_heap.
  apply allocates_only_bind; [apply allocates_only_reads_only, reads_only_read|].
  intros [?|c props]; [by apply allocates_only_same_heap|].
  destruct c; try by apply allocates_only_same_heap.
  destruct (plain_keys _); [|by apply allocates_only_same_heap].
  destruct (props !! "$set") as [[]|]; try by apply allocates_only_same_heap.
  apply allocates_only_bind; [apply allocates_only_reads_only, reads_only_read|].
  intros [?|c' sets]; [by apply allocates_only_same_heap|].
  destruct c'; try by apply allocates_only_same_heap.
  by destruct (_ && _); apply allocates_only_same_heap.
Qed.

Lemma allocates_only_findByIdAndUpdate id update :
  allocates_only (Post_findByIdAndUpdate id update).
Proof.
  destruct id; cbn [Post_findByIdAndUpdate];
    try by apply allocates_only_same_heap.
  destruct (is_id s); [|by apply allocates_only_same_heap].
  apply allocates_only_bind; [apply allocates_only_read_update|]. intros asg.
  intros s0. unfold mbind at 1, M_bind at 1, get_state.
  destruct (posts s0 !! s) as [d|].
  - destruct (apply_update asg d) as [d'|]; [|done].
    apply (allocates_only_bind (modify _) (λ _, hydrate s d'));
      [by apply allocates_only_same_heap|intros _; apply allocates_only_hydrate].
  - by destruct (apply_update asg _).
Qed.

Lemma allocates_only_handle e : allocates_only (handle e).
Proof.
  apply allocates_only_same_heap. intros s.
  destruct e; cbn [handle]; try done.
  unfold mbind, M_bind, read. by destruct (heap s !! l) as [[]|].
Qed.

Lemma allocates_only_patch_chain req id update :
  allocates_only (patch_chain req id update).
Proof.
  unfold patch_chain.
  apply allocates_only_catch; [|apply allocates_only_handle].
  apply allocates_only_bind; [apply allocates_only_findByIdAndUpdate|].
  intros post.
  apply allocates_only_bind;
    [apply allocates_only_reads_only, reads_only_handle404|]. intros post'.
  apply allocates_only_bind;
    [apply allocates_only_reads_only, reads_only_requireOwnership|]. intros _.
  apply allocates_only_bind; [apply allocates_only_alloc|]. intros body.
  by apply allocates_only_same_heap.
Qed.


(** The handler up to the call of the update: the body is stripped in
    place, and the request is otherwise as it was. *)
Lemma patch_request_run s req a id p c props :
  patch_request s req a id p c props →
  let se := set_heap (<[p := Instance c (strip props)]> (heap s)) s in
  patch_posts_id req s = patch_chain req id (VObj p) se ∧
  identity se req a.
Proof.
  intros (r & b & q & u & ui & cr & cb & cq & cu & pr & pb & pq & pu &
          -> & Hr & Hbody & Hparams & Huser & Hb & Hpost & Hq & Hid &
          Hu & Hui & Ha & Hp & Hpr & Hpb & Hpq & Hpu) se.
  split.
  - destruct (patch_strips_top_level_keys s r b p q cr cb cq c pr pb pq props)
      as [Hrun _]; try done.
    by rewrite Hid in Hrun.
  - assert (p ≠ ui) as Hpui by (intros ->; congruence).
    exists (VObj u), (VObj ui). unfold se, set_heap. split; [|split].
    + exists r, cr, pr. cbn [heap]. by rewrite lookup_insert_ne.
    + exists u, cu, pu. cbn [heap]. by rewrite lookup_insert_ne.
    + exists ui. cbn [heap]. by rewrite lookup_insert_ne.
Qed.

(** X7. Whatever PATCH /posts/:id goes on to answer, it leaves
    [req.body.post] without its top-level [owner] and without the
    top-level keys that were bound to the empty string, with every other
    key as the client sent it, and it changes no other object that
    existed. *)
Theorem patch_strips_body_in_place :
  ∀ (s : state) (req id : value) (a : string) (p : loc) (c : class)
    (props : gmap string value),
    patch_request s req a id p c props →
    let s' := (patch_posts_id req s).2 in
    heap s' !! p = Some (Instance c (strip props)) ∧
    (∀ l o, l ≠ p → heap s !! l = Some o → heap s' !! l = Some o) ∧
    strip props !! "owner" = None ∧
    (∀ k, strip props !! k ≠ Some (VStr "")) ∧
    (∀ k v, k ≠ "owner" → v ≠ VStr "" →
       props !! k = Some v → strip props !! k = Some v).
Proof.
  intros s req id a p c props Hreq s'.
  destruct (patch_request_run s req a id p c props Hreq) as [Hrun _].
  pose proof (allocates_only_patch_chain req id (VObj p)
    (set_heap (<[p := Instance c (strip props)]> (heap s)) s)) as Hframe.
  rewrite <- Hrun in Hframe. fold s' in Hframe. cbn [heap set_heap] in Hframe.
  split; [|split; [|split; [|split]]].
  - eapply lookup_weaken; [apply lookup_insert_eq|exact Hframe].
  - intros l o Hl Ho. eapply lookup_weaken; [|exact Hframe].
    by rewrite lookup_insert_ne.
  - unfold strip. apply map_lookup_filter_None. left. apply lookup_delete_eq.
  - intros k Hk. unfold strip in Hk.
    apply map_lookup_filter_Some in Hk as [_ Hk]. by apply Hk.
  - intros k v Hk Hv Hkv. unfold strip. apply map_lookup_filter_Some.
    split; [|done]. by rewrite lookup_delete_ne.
Qed.

Ltac scenario_patch_request :=
  eexists _, _, _, _, _, _, _, _, _, _, _, _, _;
  repeat split; first [ discriminate | vm_compute; reflexivity ].

Lemma patch_strips_body_in_place_witness :
  heap (patch_posts_id Scenario.req Scenario.alice_patches_fields).2 !! 6%positive
  = Some (Instance Object {[ "text" := VStr "changed" ]}).
Proof.
  destruct (patch_strips_body_in_place Scenario.alice_patches_fields
    Scenario.req (VStr Scenario.post_id) Scenario.alice 6%positive Object
    {[ "owner" := VStr Scenario.bob; "title" := VStr "";
       "text" := VStr "changed" ]}) as [H _].
  - scenario_patch_request.
  - exact H.
Defined.













End PatchRoute.

(** ** GET /posts/myPosts and GET /posts/myLatestPost *)

Section OwnPosts.
Import CustomErrors Mongoose ErrorHandler PostRoutesRest.

Lemma prop_field s v k w : prop s v k = Some w → field s v k w.
Proof.
  destruct v as [| | | | | |l]; cbn [prop]; try done.
  destruct (heap s !! l) as [[|c props]|] eqn:Hl; try done.
  intros Hk. by exists l, c, props.
Qed.

Lemma id_of_identifier s v a : id_of s v = Some a → identifier s v a.
Proof.
  destruct v as [| | | | | |l]; cbn [id_of]; try done.
  destruct (heap s !! l) as [[b|]|] eqn:Hl; try done.
  intros [= ->]. by exists l.
Qed.

Lemma populated_owner_Some s post b :
  populated_owner s post = Some b →
  ∃ owner _id,
    field s post "owner" owner ∧ field s owner "_id" _id ∧ identifier s _id b.
Proof.
  unfold populated_owner. intros H.
  destruct (prop s post "owner") as [owner|] eqn:Ho; [|done].
  cbn in H. destruct (prop s owner "_id") as [_id|] eqn:Hi; [|done].
  cbn in H. exists owner, _id.
  split; [|split]; eauto using prop_field, id_of_identifier.
Qed.

Lemma is_mine_run s req a post b :
  identity s req a → populated_owner s post = Some b →
  is_mine req post s = (Ok (String.eqb a b), s).
Proof.
  intros (user & _id & Hu & Hi & Ha) Hb.
  apply populated_owner_Some in Hb as (owner & oid & Ho & Hoi & Hob).
  unfold is_mine.
  run (get_field _ _ _ _ Hu). run (get_field _ _ _ _ Hi).
  run (get_field _ _ _ _ Ho). run (get_field _ _ _ _ Hoi).
  by apply call_equals_identifiers.
Qed.

Lemma posts_of_cons s a post posts b :
  populated_owner s post = Some b →
  posts_of s a (post :: posts) =
    if String.eqb a b then post :: posts_of s a posts else posts_of s a posts.
Proof.
  intros Hb. unfold posts_of. rewrite filter_cons, Hb.
  destruct (String.eqb a b) eqn:Hab.
  - apply String.eqb_eq in Hab as ->. by rewrite decide_True.
  - apply String.eqb_neq in Hab. rewrite decide_False; [done|congruence].
Qed.

(** The loop of myPosts adds to the local array the posts of the caller, in
    the order in which it meets them. *)
Lemma myPosts_loop s req a posts (myPosts : list value) :
  identity s req a →
  Forall (λ post, is_Some (populated_owner s post)) posts →
  foldM (λ (myPosts : list value) (post : value),
      mine ← is_mine req post;
      if mine : bool then mret (myPosts ++ [post])%list else mret myPosts)
    myPosts posts s
  = (Ok (myPosts ++ posts_of s a posts)%list, s).
Proof.
  intros Ha Hposts. revert myPosts.
  induction Hposts as [|post posts [b Hb] _ IH]; intros myPosts; cbn [foldM].
  - unfold posts_of. by rewrite filter_nil, app_nil_r.
  - pose proof (is_mine_run s req a post b Ha Hb) as Hmine.
    rewrite (posts_of_cons s a post posts b Hb).
    destruct (String.eqb a b);
      (erewrite bind_Ok; [|erewrite bind_Ok by exact Hmine; reflexivity]);
      rewrite IH; [|done].
    by rewrite <- app_assoc.
Qed.

(** X10. GET /posts/myPosts, on the posts the query found, each with its
    owner populated: the array that is answered is [toObject] of exactly the
    posts whose owner is the caller, in the order in which the query found
    them; no post of another user is handed to [toObject]. *)
Theorem myPosts_selects_posts_of_caller :
  ∀ (toObject : value → M value) (s : state) (req : value) (a : string)
    (posts : list value),
    identity s req a →
    Forall (λ post, is_Some (populated_owner s post)) posts →
    myPosts_then toObject req posts s
    = Array_map (posts_of s a posts) toObject s.
Proof.
  intros toObject s req a posts Ha Hposts. unfold myPosts_then.
  by run (myPosts_loop s req a posts [] Ha Hposts).
Qed.

Ltac feed_identity :=
  exists (VObj 2), (VObj 3); split; [|split];
  [ eexists _, _, _; repeat split; vm_compute; reflexivity
  | eexists _, _, _; repeat split; vm_compute; reflexivity
  | eexists; split; [reflexivity | vm_compute; reflexivity] ].

Ltac feed_populated :=
  repeat (constructor; [eexists; vm_compute; reflexivity|]); constructor.

Lemma myPosts_selects_posts_of_caller_witness :
  myPosts_then Feed.toObject_same Scenario.req Feed.found Feed.alice_asks
  = (Ok [VObj 12], Feed.alice_asks).
Proof.
  refine (eq_trans
    (myPosts_selects_posts_of_caller Feed.toObject_same Feed.alice_asks
       Scenario.req Scenario.alice Feed.found _ _) _).
  - feed_identity.
  - feed_populated.
  - vm_compute; reflexivity.
Defined.

Lemma is_mine_no_owner s req a post :
  identity s req a → no_value s post "owner" →
  raises_TypeError (is_mine req post) s.
Proof.
  intros (user & _id & Hu & Hi & Ha) Hn.
  destruct (get_no_value _ _ _ Hn) as (w & Hw & Hnull).
  unfold raises_TypeError, is_mine.
  run (get_field _ _ _ _ Hu). run (get_field _ _ _ _ Hi). run Hw.
  apply bind_Throw. by apply get_of_no_value.
Qed.

Lemma myPosts_loop_without_owner s req a before after orphan
    (myPosts : list value) :
  identity s req a →
  Forall (λ post, is_Some (populated_owner s post)) before →
  no_value s orphan "owner" →
  raises_TypeError
    (foldM (λ (myPosts : list value) (post : value),
        mine ← is_mine req post;
        if mine : bool then mret (myPosts ++ [post])%list else mret myPosts)
      myPosts (before ++ orphan :: after)) s.
Proof.
  intros Ha Hbefore Horphan. unfold raises_TypeError. revert myPosts.
  induction Hbefore as [|post posts [b Hb] _ IH]; intros myPosts;
    cbn [app foldM].
  - apply bind_Throw. apply bind_Throw.
    by apply (is_mine_no_owner s req a).
  - pose proof (is_mine_run s req a post b Ha Hb) as Hmine.
    destruct (String.eqb a b);
      (erewrite bind_Ok; [|erewrite bind_Ok by exact Hmine; reflexivity]);
      apply IH.
Qed.

(** X11. GET /posts/myPosts visits every post that the query found, so one
    post whose owner is missing, [undefined] or [null] (an owner that could
    not be populated) makes the selection throw a TypeError for every
    caller, wherever the post is in the array and whatever the other posts
    are; nothing is handed to [toObject]. *)
Theorem myPosts_fails_on_post_without_owner :
  ∀ (toObject : value → M value) (s : state) (req : value) (a : string)
    (before after : list value) (orphan : value),
    identity s req a →
    Forall (λ post, is_Some (populated_owner s post)) before →
    no_value s orphan "owner" →
    raises_TypeError (myPosts_then toObject req (before ++ orphan :: after)) s.
Proof.
  intros toObject s req a before after orphan Ha Hbefore Horphan.
  unfold raises_TypeError, myPosts_then. apply bind_Throw.
  by apply (myPosts_loop_without_owner s req a).
Qed.

Lemma myPosts_fails_on_post_without_owner_witness :
  let s := State
    (Feed.found_heap Scenario.alice ∪
       {[ 20%positive := Instance Document
            {[ "_id" := VObj 9; "owner" := VNull ]} ]})
    Scenario.stored [] in
  raises_TypeError
    (myPosts_then Feed.toObject_same Scenario.req
       ([VObj 8] ++ VObj 20 :: [VObj 12])) s.
Proof.
  intros s.
  apply (myPosts_fails_on_post_without_owner Feed.toObject_same s
           Scenario.req Scenario.alice [VObj 8] [VObj 12] (VObj 20)).
  - feed_identity.
  - feed_populated.
  - eexists _, _, _. split; [reflexivity|].
    split; [vm_compute; reflexivity|]. right; right. vm_compute; reflexivity.
Defined.

Lemma populated_owner_truthy s post b :
  populated_owner s post = Some b → ToBoolean post = true.
Proof.
  intros Hb. apply populated_owner_Some in Hb as (o & i & Ho & _ & _).
  by destruct Ho as (l & c & props & -> & _ & _).
Qed.

(** [posts.find] with the callback of myLatestPost returns the first post
    of the caller, and [undefined] when there is none. *)
Lemma myLatestPost_find s req a posts :
  identity s req a →
  Forall (λ post, is_Some (populated_owner s post)) posts →
  Array_find posts (λ post : value,
      mine ← is_mine req post;
      if mine : bool then mret post else mret VUndefined) s
  = (Ok (default VUndefined (head (posts_of s a posts))), s).
Proof.
  intros Ha Hposts.
  induction Hposts as [|post posts [b Hb] _ IH]; cbn [Array_find]; [done|].
  pose proof (is_mine_run s req a post b Ha Hb) as Hmine.
  rewrite (posts_of_cons s a post posts b Hb).
  destruct (String.eqb a b);
    (erewrite bind_Ok; [|erewrite bind_Ok by exact Hmine; reflexivity]).
  - by rewrite (populated_owner_truthy s post b Hb).
  - cbn [ToBoolean]. apply IH.
Qed.

(** X12. GET /posts/myLatestPost, when the query finds posts that all have
    their owner populated: the handler answers 200 with a body whose [post]
    is the first of the caller's posts in the order of the query, and
    [undefined] when the caller has no post; it never answers 404.  The
    posts found and the store are untouched. *)
Theorem myLatestPost_answers_first_post_of_caller :
  ∀ (find : M (list value)) (s s1 : state) (req : value) (a : string)
    (posts : list value),
    find s = (Ok posts, s1) → identity s1 req a →
    Forall (λ post, is_Some (populated_owner s1 post)) posts →
    get_posts_myLatestPost find req s
    = (Ok tt,
       push_sent (Json 200 (VObj (next s1)))
         (grows (Instance Object
                   {[ "post" := default VUndefined (head (posts_of s1 a posts)) ]})
            s1)).
Proof.
  intros find s s1 req a posts Hfind Ha Hposts.
  unfold get_posts_myLatestPost. apply catch_Ok.
  run Hfind. run (myLatestPost_find s1 req a posts Ha Hposts).
  by run (alloc_run s1).
Qed.

Lemma myLatestPost_answers_first_post_of_caller_witness :
  get_posts_myLatestPost Feed.find_both Scenario.req Feed.alice_asks
  = (Ok tt,
     push_sent (Json 200 (VObj (next Feed.alice_asks)))
       (grows (Instance Object {[ "post" := VObj 12 ]}) Feed.alice_asks)).
Proof.
  refine (eq_trans
    (myLatestPost_answers_first_post_of_caller Feed.find_both Feed.alice_asks
       Feed.alice_asks Scenario.req Scenario.alice Feed.found _ _ _) _).
  - reflexivity.
  - feed_identity.
  - feed_populated.
  - vm_compute; reflexivity.
Defined.

End OwnPosts.

(** ** GET /posts/:id and POST /posts *)

Section ShowAndCreate.
Import CustomErrors Mongoose ErrorHandler PostRoutesRest.

(** X13. GET /posts/:id for an identifier that no stored post has: the
    handler answers 404 with the message of DocumentNotFoundError, the posts
    are as they were, and neither the populating of the owner nor
    [toObject] is reached, whatever they would do. *)
Theorem show_missing_post_answers_404 :
  ∀ (populate toObject : value → M value) (s : state) (req : value)
    (i : string),
    param_id s req (VStr i) → is_id i = true → posts s !! i = None →
    get_posts_id populate toObject req s
    = (Ok tt,
       push_sent
         (ErrorJson 404 (VStr "The provided ID doesn't match any documents"))
         (grows (error_object DocumentNotFoundError "DocumentNotFoundError"
                   "The provided ID doesn't match any documents") s)).
Proof.
  intros populate toObject s req i (params & Hp & Hi) Hid Hnone.
  unfold get_posts_id.
  run (get_field _ _ _ _ Hp). run (get_field _ _ _ _ Hi).
  apply (catch_raises _ s s DocumentNotFoundError "DocumentNotFoundError").
  erewrite bind_Ok;
    [|unfold Post_findById_populate;
      by erewrite bind_Ok by apply (findById_missing s i Hid Hnone)].
  apply bind_Throw. by apply handle404_falsy.
Qed.

Lemma show_missing_post_answers_404_witness :
  let s := State (Scenario.request_heap Scenario.bob ∅ ∅) ∅ [] in
  get_posts_id Feed.toObject_same Feed.toObject_same Scenario.req s
  = (Ok tt,
     push_sent
       (ErrorJson 404 (VStr "The provided ID doesn't match any documents"))
       (grows (error_object DocumentNotFoundError "DocumentNotFoundError"
                 "The provided ID doesn't match any documents") s)).
Proof.
  intros s.
  apply (show_missing_post_answers_404 Feed.toObject_same Feed.toObject_same
           s Scenario.req Scenario.post_id).
  - exists (VObj 4).
    split; eexists _, _, _; repeat split; vm_compute; reflexivity.
  - vm_compute; reflexivity.
  - vm_compute; reflexivity.
Defined.

Lemma get_id_document s u ui pu a :
  heap s !! u = Some (Instance Document pu) → pu !! "id" = None →
  pu !! "_id" = Some (VObj ui) → heap s !! ui = Some (ObjectID a) →
  get_id (VObj u) s = (Ok (VStr a), s).
Proof.
  intros Hu Hid Hui Ha. unfold get_id.
  rewrite (bind_Ok _ _ _ _ _ (read_Some _ _ _ Hu)).
  rewrite decide_True by done. rewrite Hui.
  by rewrite (bind_Ok _ _ _ _ _ (read_Some _ _ _ Ha)).
Qed.

Lemma set_prop_run s l c props k v :
  heap s !! l = Some (Instance c props) →
  set_prop (VObj l) k v s =
    (Ok tt, set_heap (<[l := Instance c (<[k := v]> props)]> (heap s)) s).
Proof.
  intros H. unfold set_prop. by rewrite (bind_Ok _ _ _ _ _ (read_Some _ _ _ H)).
Qed.

(** X14. POST /posts hands to [Post.create] the object [req.body.post]
    itself, with [owner] set to the identifier of the caller as a string:
    an owner that the client sent is overwritten, every other key is as the
    client sent it, and no other object is changed before the call. *)
Theorem create_sets_owner_to_caller :
  ∀ (Post_create toObject : value → M value) (s : state) (req : value)
    (a : string) (p : loc) (c : class) (props : gmap string value),
    create_request s req a p c props →
    post_posts Post_create toObject req s
    = create_chain Post_create toObject (VObj p)
        (set_heap (<[p := Instance c (<["owner" := VStr a]> props)]> (heap s)) s).
Proof.
  intros Post_create toObject s req a p c props
    (r & b & u & ui & cr & cb & pr & pb & pu & -> & Hr & Hbody & Huser &
     Hb & Hpost & Hu & Hid & Hui & Ha & Hp & Hpr & Hpb & Hpu).
  unfold post_posts.
  assert (field s (VObj r) "body" (VObj b)) as Fb by (by exists r, cr, pr).
  assert (field s (VObj b) "post" (VObj p)) as Fp by (by exists b, cb, pb).
  assert (field s (VObj r) "user" (VObj u)) as Fu by (by exists r, cr, pr).
  run (get_field _ _ _ _ Fb). run (get_field _ _ _ _ Fp).
  run (get_field _ _ _ _ Fu). run (get_id_document s u ui pu a Hu Hid Hui Ha).
  run (set_prop_run s p c props "owner" (VStr a) Hp).
  set (s1 := set_heap _ s).
  assert (field s1 (VObj r) "body" (VObj b)) as Fb1.
  { exists r, cr, pr. repeat split; [|done].
    unfold s1, set_heap. cbn [heap]. by rewrite lookup_insert_ne. }
  assert (field s1 (VObj b) "post" (VObj p)) as Fp1.
  { exists b, cb, pb. repeat split; [|done].
    unfold s1, set_heap. cbn [heap]. by rewrite lookup_insert_ne. }
  run (get_field _ _ _ _ Fb1). by run (get_field _ _ _ _ Fp1).
Qed.

Lemma create_sets_owner_to_caller_witness :
  post_posts Feed.toObject_same Feed.toObject_same Scenario.req
    Feed.alice_creates
  = create_chain Feed.toObject_same Feed.toObject_same (VObj 6)
      (State
         (Scenario.request_heap Scenario.alice
            {[ "owner" := VStr Scenario.alice; "text" := VStr "new" ]} ∅)
         Scenario.stored []).
Proof.
  refine (eq_trans
    (create_sets_owner_to_caller Feed.toObject_same Feed.toObject_same
       Feed.alice_creates Scenario.req Scenario.alice 6%positive Object
       {[ "owner" := VStr Scenario.bob; "text" := VStr "new" ]} _) _).
  - eexists _, _, _, _, _, _, _, _, _;
      repeat split; first [ discriminate | vm_compute; reflexivity ].
  - f_equal.
Defined.

End ShowAndCreate.

(** ** The transform of the user schema, again *)

Section TransformAgain.
Import UserModel.

(** X15. On a user object that has no [hashedPassword], as when only the
    nickname of an owner was selected, the transform returns the object and
    changes nothing; and applying the transform to its own result changes
    nothing more. *)
Theorem transform_without_hash_changes_nothing :
  ∀ (s : state) (_doc : value) (u : loc) (c : class)
    (props : gmap string value),
    heap s !! u = Some (Instance c props) →
    (props !! "hashedPassword" = None →
       transform _doc (VObj u) s = (Ok (VObj u), s)) ∧
    (∀ s1, transform _doc (VObj u) s = (Ok (VObj u), s1) →
       transform _doc (VObj u) s1 = (Ok (VObj u), s1)).
Proof.
  intros s _doc u c props Hu.
  assert (∀ s0 props0, heap s0 !! u = Some (Instance c props0) →
    props0 !! "hashedPassword" = None →
    transform _doc (VObj u) s0 = (Ok (VObj u), s0)) as Hsame.
  { intros s0 props0 H0 Hnone. unfold transform.
    rewrite (bind_Ok _ _ _ _ _ (delete_prop_run _ _ _ _ _ H0)).
    rewrite delete_id by done. rewrite insert_id by done.
    by rewrite set_heap_id. }
  split; [by apply Hsame|].
  intros s1 Hrun. unfold transform in Hrun.
  rewrite (bind_Ok _ _ _ _ _ (delete_prop_run _ _ _ _ _ Hu)) in Hrun.
  injection Hrun as <-.
  apply (Hsame _ (delete "hashedPassword" props)).
  - apply lookup_insert_eq.
  - apply lookup_delete_eq.
Qed.

Lemma transform_without_hash_changes_nothing_witness :
  let s := State
    {[ 14%positive := Instance Document
         {[ "_id" := VObj 15; "nickname" := VStr "alice" ]} ]} ∅ [] in
  transform VUndefined (VObj 14) s = (Ok (VObj 14), s).
Proof.
  intros s.
  destruct (transform_without_hash_changes_nothing s VUndefined 14%positive
    Document {[ "_id" := VObj 15; "nickname" := VStr "alice" ]}) as [H _].
  - vm_compute; reflexivity.
  - apply H. vm_compute; reflexivity.
Defined.

End TransformAgain.
